(** * UTM/UPS grid conversions (utm.cpp, utm.h): a shallow embedding

    The C sources compute on [double] and call the C mathematical library.
    The embedding keeps every function of utm.cpp parametric in the arithmetic
    it runs on (class [Num]): the operations of the C expressions, the
    conversions between integers and doubles, and the libm functions the
    code calls.  Two interpretations are given further down:

    - [Binary64]: IEEE-754 binary64 through Rocq's primitive floats, with
      the libm functions passed in a class [Libm]; this is the arithmetic
      the compiled code runs on, and it evaluates;
    - [Exact]: the real numbers of the Standard Library, for statements
      about the formulas themselves.

    Output parameters ([double*], [GridZone*], [Hemisphere*]) are modelled by
    explicit state passing: a function that may return without assigning an
    output takes the previous content of that variable and hands it back. *)

From Stdlib Require Import ZArith Bool Lia List.
From Stdlib Require Import Floats.
From Stdlib Require Import Reals Lra.
From Stdlib Require Import String Ascii.
Import ListNotations.

Set Implicit Arguments.

(** ** The arithmetic the code runs on *)

Class Num (T : Type) : Type := {
  (* conversion of an integer expression to double *)
  of_Z : Z -> T;
  (* the cast [(unsigned)x] of a double *)
  to_unsigned : T -> Z;
  add : T -> T -> T;
  sub : T -> T -> T;
  mul : T -> T -> T;
  div : T -> T -> T;
  opp : T -> T;
  ltb : T -> T -> bool;
  leb : T -> T -> bool;
  eqb : T -> T -> bool;
  (* the macro M_PI *)
  M_PI : T;
  (* <math.h> *)
  sqrt : T -> T;
  fabs : T -> T;
  sin : T -> T;
  cos : T -> T;
  tan : T -> T;
  asin : T -> T;
  atan : T -> T;
  atan2 : T -> T -> T;
  sinh : T -> T;
  cosh : T -> T;
  atanh : T -> T;
  pow : T -> T -> T;
  fmod : T -> T -> T
}.

Declare Scope num_scope.
Delimit Scope num_scope with num.
Notation "# z" := (of_Z z%Z) (at level 5, z at level 0, format "# z") : num_scope.
Infix "+" := add : num_scope.
Infix "-" := sub : num_scope.
Infix "*" := mul : num_scope.
Infix "/" := div : num_scope.
Notation "- x" := (opp x) : num_scope.
(* C's comparison operators on doubles; [x > y] is [y < x], [x >= y] is [y <= x] *)
Notation "x <? y" := (ltb x y) : num_scope.
Notation "x <=? y" := (leb x y) : num_scope.
Notation "x >? y" := (ltb y x) (only parsing) : num_scope.
Notation "x >=? y" := (leb y x) (only parsing) : num_scope.
Notation "x ==? y" := (eqb x y) (at level 70, no associativity) : num_scope.
Notation "x !=? y" := (negb (eqb x y)) (at level 70, no associativity) : num_scope.

(** ** utm.h: the enumerations *)

(** [enum GridZone]: a C enumeration is an integer, and the code casts it to
    [unsigned] and back; the enumerators are kept as integer constants. *)
Definition GridZone := Z.
Definition UTM_ZONE_AUTO : GridZone := 0%Z.
Definition UTM_ZONE_1 : GridZone := 1%Z.
Definition UTM_ZONE_31 : GridZone := 31%Z.
Definition UTM_ZONE_32 : GridZone := 32%Z.
Definition UTM_ZONE_33 : GridZone := 33%Z.
Definition UTM_ZONE_35 : GridZone := 35%Z.
Definition UTM_ZONE_37 : GridZone := 37%Z.
Definition UTM_ZONE_60 : GridZone := 60%Z.
Definition UPS_NORTH : GridZone := 61%Z.
Definition UPS_SOUTH : GridZone := 62%Z.
Definition GRID_AUTO : GridZone := 63%Z.

Inductive Hemisphere : Type := HEMI_AUTO | HEMI_NORTH | HEMI_SOUTH.

Definition Hemisphere_eqb (h1 h2 : Hemisphere) : bool :=
  match h1, h2 with
  | HEMI_AUTO, HEMI_AUTO | HEMI_NORTH, HEMI_NORTH | HEMI_SOUTH, HEMI_SOUTH => true
  | _, _ => false
  end.

(** Unsigned 32-bit arithmetic and the casts between [GridZone] and [unsigned]. *)
Definition wrap32 (z : Z) : Z := (z mod 2 ^ 32)%Z.
Definition unsigned_of_GridZone (z : GridZone) : Z := wrap32 z.
Definition GridZone_of_unsigned (u : Z) : GridZone :=
  if (u <? 2 ^ 31)%Z then u else (u - 2 ^ 32)%Z.

Section Projections.

Context {T : Type} {num : Num T}.
Local Open Scope num_scope.

(** ** The sphere (Snyder) *)

Definition geographic_to_tm_sphere (R k0 lon_mer FN FE lat_rad lon_rad : T) : T * T :=
  let Rk0 := R * k0 in
  let B := cos lat_rad * sin (lon_rad - lon_mer) in
  let E := FE + Rk0 * atanh B in
  let N := FN + Rk0 * atan (tan lat_rad / cos (lon_rad - lon_mer)) in
  (N, E).

Definition tm_to_geographic_sphere (R k0 lon_mer FN FE N E : T) : T * T :=
  let Rk0 := R * k0 in
  let D := (N - FN) / Rk0 in
  let lon_rad := lon_mer + atan (sinh ((E - FE) / Rk0) / cos D) in
  let lat_rad := asin (sin D / cosh ((E - FE) / Rk0)) in
  (lat_rad, lon_rad).

(** [out] is the content of [( *N, *E )] before the call; nothing is assigned
    when [hemi] is neither [HEMI_NORTH] nor [HEMI_SOUTH]. *)
Definition geographic_to_ps_sphere (R k0 : T) (hemi : Hemisphere)
    (FN FE lat_rad lon_rad : T) (out : T * T) : T * T :=
  let Rk0 := R * k0 in
  match hemi with
  | HEMI_NORTH =>
      let E := FE + #2 * Rk0 * tan (M_PI / #4 - lat_rad / #2) * sin lon_rad in
      let N := FN - #2 * Rk0 * tan (M_PI / #4 - lat_rad / #2) * cos lon_rad in
      (N, E)
  | HEMI_SOUTH =>
      let E := FE + #2 * Rk0 * tan (M_PI / #4 + lat_rad / #2) * sin lon_rad in
      let N := FN + #2 * Rk0 * tan (M_PI / #4 + lat_rad / #2) * cos lon_rad in
      (N, E)
  | HEMI_AUTO => out
  end.

(** [out] is the content of [( *lat_rad, *lon_rad )] before the call. *)
Definition ps_to_geographic_sphere (R k0 : T) (hemi : Hemisphere)
    (FN FE N E : T) (out : T * T) : T * T :=
  let Rk0 := R * k0 in
  let x := E - FE in
  let y := N - FN in
  let rho := sqrt (x * x + y * y) in
  let c := #2 * atan (rho / (#2 * Rk0)) in
  match hemi with
  | HEMI_NORTH => (asin (cos c), atan2 x (- y))
  | HEMI_SOUTH => (- asin (cos c), atan2 x y)
  | HEMI_AUTO => out
  end.

(** ** The ellipsoid (Karney 2011, Kawase 2011 and 2013) *)

Definition poly4 (x c0 c1 c2 c3 c4 : T) : T :=
  c0 + x * (c1 + x * (c2 + x * (c3 + x * c4))).

Definition SQR (x : T) : T := x * x.

Definition geographic_to_tm (a e2 k0 lon_mer FN FE lat_rad lon_rad : T) : T * T :=
  let f := #1 - sqrt (#1 - e2) in
  let n := f / (#2 - f) in
  let A := a / (#1 + n) * poly4 (n * n) #1 (#1 / #4) (#1 / #64) (#1 / #256) (#25 / #16384) in
  let a1 := poly4 n #0 (#1 / #2) (- #2 / #3) (#5 / #16) (#41 / #180) in
  let a2 := poly4 n #0 #0 (#13 / #48) (- #3 / #5) (#557 / #1440) in
  let a3 := poly4 n #0 #0 #0 (#61 / #240) (- #103 / #140) in
  let a4 := poly4 n #0 #0 #0 #0 (#49561 / #161280) in
  let sin_phi := sin lat_rad in
  let t_factor := #2 * sqrt n / (#1 + n) in
  let t := sinh (atanh sin_phi - t_factor * atanh (t_factor * sin_phi)) in
  let xi := atan (t / cos (lon_rad - lon_mer)) in
  let eta := atanh (sin (lon_rad - lon_mer) / sqrt (#1 + t * t)) in
  let E := FE + k0 * A * (eta + a1 * cos (#2 * xi) * sinh (#2 * eta)
             + a2 * cos (#4 * xi) * sinh (#4 * eta) + a3 * cos (#6 * xi) * sinh (#6 * eta)
             + a4 * cos (#8 * xi) * sinh (#8 * eta)) in
  let N := FN + k0 * A * (xi + a1 * sin (#2 * xi) * cosh (#2 * eta)
             + a2 * sin (#4 * xi) * cosh (#4 * eta) + a3 * sin (#6 * xi) * cosh (#6 * eta)
             + a4 * sin (#8 * xi) * cosh (#8 * eta)) in
  (N, E).

(** The four outputs [( *N, *E, *grid_convergence_rad, *scale )]. *)
Record tm_point : Type := {
  tm_N : T;
  tm_E : T;
  tm_grid_convergence_rad : T;
  tm_scale : T
}.

Definition geographic_to_tm_with_convergence_and_scale
    (a e2 k0 lon_mer FN FE lat_rad lon_rad : T) : tm_point :=
  let f := #1 - sqrt (#1 - e2) in
  let n := f / (#2 - f) in
  let A := a / (#1 + n) * poly4 (n * n) #1 (#1 / #4) (#1 / #64) (#1 / #256) (#25 / #16384) in
  let a1 := poly4 n #0 (#1 / #2) (- #2 / #3) (#5 / #16) (#41 / #180) in
  let a2 := poly4 n #0 #0 (#13 / #48) (- #3 / #5) (#557 / #1440) in
  let a3 := poly4 n #0 #0 #0 (#61 / #240) (- #103 / #140) in
  let a4 := poly4 n #0 #0 #0 #0 (#49561 / #161280) in
  let sin_phi := sin lat_rad in
  let t_factor := #2 * sqrt n / (#1 + n) in
  let t := sinh (atanh sin_phi - t_factor * atanh (t_factor * sin_phi)) in
  let xi := atan (t / cos (lon_rad - lon_mer)) in
  let eta := atanh (sin (lon_rad - lon_mer) / sqrt (#1 + t * t)) in
  let E := FE + k0 * A * (eta + a1 * cos (#2 * xi) * sinh (#2 * eta)
             + a2 * cos (#4 * xi) * sinh (#4 * eta) + a3 * cos (#6 * xi) * sinh (#6 * eta)
             + a4 * cos (#8 * xi) * sinh (#8 * eta)) in
  let N := FN + k0 * A * (xi + a1 * sin (#2 * xi) * cosh (#2 * eta)
             + a2 * sin (#4 * xi) * cosh (#4 * eta) + a3 * sin (#6 * xi) * cosh (#6 * eta)
             + a4 * sin (#8 * xi) * cosh (#8 * eta)) in
  let sigma := #1 + #2 * (a1 * cos (#2 * xi) * cosh (#2 * eta)
             + #2 * a2 * cos (#4 * xi) * cosh (#4 * eta)
             + #3 * a3 * cos (#6 * xi) * cosh (#6 * eta)
             + #4 * a4 * cos (#8 * xi) * cosh (#8 * eta)) in
  let tau := #2 * (a1 * sin (#2 * xi) * sinh (#2 * eta)
             + #2 * a2 * sin (#4 * xi) * sinh (#4 * eta)
             + #3 * a3 * sin (#6 * xi) * sinh (#6 * eta)
             + #4 * a4 * sin (#8 * xi) * sinh (#8 * eta)) in
  let grid_convergence_rad :=
    atan ((tau * sqrt (#1 + t * t) + sigma * t * tan (lon_rad - lon_mer)) /
          (sigma * sqrt (#1 + t * t) - tau * t * tan (lon_rad - lon_mer))) in
  let scale :=
    k0 * A / a * sqrt ((#1 + SQR ((#1 - n) / (#1 + n) * tan lat_rad))
                       * (sigma * sigma + tau * tau) /
                       (t * t + SQR (cos (lon_rad - lon_mer)))) in
  {| tm_N := N; tm_E := E;
     tm_grid_convergence_rad := grid_convergence_rad; tm_scale := scale |}.

Definition tm_to_geographic (a e2 k0 lon_mer FN FE N E : T) : T * T :=
  let f := #1 - sqrt (#1 - e2) in
  let n := f / (#2 - f) in
  let A := a / (#1 + n) * poly4 (n * n) #1 (#1 / #4) (#1 / #64) (#1 / #256) (#25 / #16384) in
  let b1 := poly4 n #0 (#1 / #2) (- #2 / #3) (#37 / #96) (- #1 / #360) in
  let b2 := poly4 n #0 #0 (#1 / #48) (#1 / #15) (- #437 / #1440) in
  let b3 := poly4 n #0 #0 #0 (#17 / #480) (- #37 / #840) in
  let b4 := poly4 n #0 #0 #0 #0 (#4397 / #161280) in
  let xi := (N - FN) / (k0 * A) in
  let eta := (E - FE) / (k0 * A) in
  let xi_prime := xi - (b1 * sin (#2 * xi) * cosh (#2 * eta)
             + b2 * sin (#4 * xi) * cosh (#4 * eta) + b3 * sin (#6 * xi) * cosh (#6 * eta)
             + b4 * sin (#8 * xi) * cosh (#8 * eta)) in
  let eta_prime := eta - (b1 * cos (#2 * xi) * sinh (#2 * eta)
             + b2 * cos (#4 * xi) * sinh (#4 * eta) + b3 * cos (#6 * xi) * sinh (#6 * eta)
             + b4 * cos (#8 * xi) * sinh (#8 * eta)) in
  let d1 := poly4 n #0 #2 (- #2 / #3) (- #2) (#116 / #45) in
  let d2 := poly4 n #0 #0 (#7 / #3) (- #8 / #5) (- #227 / #45) in
  let d3 := poly4 n #0 #0 #0 (#56 / #15) (- #136 / #35) in
  let d4 := poly4 n #0 #0 #0 #0 (#4279 / #630) in
  let chi := asin (sin xi_prime / cosh eta_prime) in
  let lat_rad := chi + d1 * sin (#2 * chi) + d2 * sin (#4 * chi)
                 + d3 * sin (#6 * chi) + d4 * sin (#8 * chi) in
  let lon_rad := lon_mer + atan (sinh eta_prime / cos xi_prime) in
  (lat_rad, lon_rad).

(** ** The ellipsoid, DMATM 8358.2 (retained for reference) *)

Definition dmatm_geographic_to_tm (a e2 k0 lon_mer FN FE lat_rad lon_rad : T) : T * T :=
  let ep2 := e2 / (#1 - e2) in
  let f := #1 - sqrt (#1 - e2) in
  let n := f / (#2 - f) in
  let phi := lat_rad in
  let s := sin phi in
  let c := cos phi in
  let s2 := s * s in
  let c2 := c * c in
  let nu := a / sqrt (#1 - e2 * s2) in
  let n2 := n * n in
  let n3 := n2 * n in
  let n4 := n3 * n in
  let n5 := n4 * n in
  let Ap := a * (#1 - n + #5 * (n2 - n3) / #4 + #81 * (n4 - n5) / #64) in
  let Bp := #3 * a * (n - n2 + #7 * (n3 - n4) / #8 + #55 * n5 / #64) / #2 in
  let Cp := #15 * a * (n2 - n3 + #3 * (n4 - n5) / #4) / #16 in
  let Dp := #35 * a * (n3 - n4 + #11 * n5 / #16) / #48 in
  let Ep := #315 * a * (n4 - n5) / #512 in
  let s2phi := #2 * s * c in
  let c2phi := c2 - s2 in
  let s4phi := #2 * s2phi * c2phi in
  let c4phi := c2phi * c2phi - s2phi * s2phi in
  let s6phi := s4phi * c2phi + s2phi * c4phi in
  let s8phi := #2 * s4phi * c4phi in
  let S := Ap * phi - Bp * s2phi + Cp * s4phi - Dp * s6phi + Ep * s8phi in
  let sc := s * c in
  let nuck0 := nu * c * k0 in
  let nusck0 := nu * sc * k0 in
  let c4 := c2 * c2 in
  let c6 := c4 * c2 in
  let t := s / c in
  let t2 := t * t in
  let t4 := t2 * t2 in
  let t6 := t4 * t2 in
  let epc2 := ep2 * c2 in
  let epc4 := epc2 * epc2 in
  let epc6 := epc4 * epc2 in
  let epc8 := epc6 * epc2 in
  let T1 := S * k0 in
  let T2 := nusck0 / #2 in
  let T3 := nusck0 * c2 * (#5 - t2 + #9 * epc2 + #4 * epc4) / #24 in
  let T4 := nusck0 * c4 * (#61 - #58 * t2 + t4 + #270 * epc2 - #330 * t2 * epc2
                           + #445 * epc4 + #324 * epc6 - #680 * t2 * epc4
                           + #88 * epc8 - #660 * t2 * epc6 - #192 * t2 * epc8) / #720 in
  let T5 := nusck0 * c6 * (#1385 - #3111 * t2 + #543 * t4 - t6) / #40320 in
  let T6 := nuck0 in
  let T7 := nuck0 * c2 * (#1 - t2 + epc2) / #6 in
  let T8 := nuck0 * c4 * (#5 - #18 * t2 + t4 + #14 * epc2 - #58 * t2 * epc2 + #13 * epc4
                          + #4 * epc6 - #64 * t2 * epc4 - #24 * t2 * epc6) / #120 in
  let T9 := nuck0 * c6 * (#61 - #479 * t2 + #179 * t4 - t6) / #5040 in
  let dl := lon_rad - lon_mer in
  let dl2 := dl * dl in
  let dl4 := dl2 * dl2 in
  let dl6 := dl4 * dl2 in
  let dl8 := dl6 * dl2 in
  let N := FN + T1 + dl2 * T2 + dl4 * T3 + dl6 * T4 + dl8 * T5 in
  let E := FE + dl * (T6 + dl2 * T7 + dl4 * T8 + dl6 * T9) in
  (N, E).

(** [#define TM_TO_GEOGRAPHIC_TOLERANCE_M 0.001] (utm.h) *)
Definition TM_TO_GEOGRAPHIC_TOLERANCE_M : T := #1 / #1000.

(** One evaluation of the body of [while(1)] in [dmatm_tm_to_geographic], up to
    the [break] test: the sine [s] of the current [phi] and [T1 = S*k0]. *)
Definition dmatm_T1 (a n k0 phi : T) : T * T :=
  let n2 := n * n in
  let n3 := n2 * n in
  let n4 := n3 * n in
  let n5 := n4 * n in
  let s := sin phi in
  let Ap := a * (#1 - n + #5 * (n2 - n3) / #4 + #81 * (n4 - n5) / #64) in
  let Bp := #3 * a * (n - n2 + #7 * (n3 - n4) / #8 + #55 * n5 / #64) / #2 in
  let Cp := #15 * a * (n2 - n3 + #3 * (n4 - n5) / #4) / #16 in
  let Dp := #35 * a * (n3 - n4 + #11 * n5 / #16) / #48 in
  let Ep := #315 * a * (n4 - n5) / #512 in
  let c := cos phi in
  let s2phi := #2 * s * c in
  let c2phi := c * c - s * s in
  let s4phi := #2 * s2phi * c2phi in
  let c4phi := c2phi * c2phi - s2phi * s2phi in
  let s6phi := s4phi * c2phi + s2phi * c4phi in
  let s8phi := #2 * s4phi * c4phi in
  let S := Ap * phi - Bp * s2phi + Cp * s4phi - Dp * s6phi + Ep * s8phi in
  let T1 := S * k0 in
  (s, T1).

(** The test of the only [break] of the loop. *)
Definition dmatm_converged (a n k0 y phi : T) : bool :=
  fabs (snd (dmatm_T1 a n k0 phi) - y) <? TM_TO_GEOGRAPHIC_TOLERANCE_M.

(** The loop [while(1) { ...; if(fabs(T1-y) < TOLERANCE) break; phi *= y/T1; }].
    The source bounds nothing; [fuel] counts the evaluations of the body the
    model is willing to follow, and [None] says the loop is still running after
    that many.  On exit the loop leaves [phi] and [s = sin(phi)]. *)
Fixpoint dmatm_phi_loop (fuel : nat) (a n k0 y phi : T) : option (T * T) :=
  match fuel with
  | O => None
  | S fuel' =>
      let '(s, T1) := dmatm_T1 a n k0 phi in
      if fabs (T1 - y) <? TM_TO_GEOGRAPHIC_TOLERANCE_M then Some (phi, s)
      else dmatm_phi_loop fuel' a n k0 y (phi * (y / T1))
  end.

(** The code after the loop. *)
Definition dmatm_tm_to_geographic_tail (a e2 k0 lon_mer x phi s : T) : T * T :=
  let ep2 := e2 / (#1 - e2) in
  let s2 := s * s in
  let nu := a / sqrt (#1 - e2 * s2) in
  let rho := nu / (#1 - e2 * s2) * (#1 - e2) in
  let c := cos phi in
  let c2 := c * c in
  let t := s / c in
  let t2 := t * t in
  let t4 := t2 * t2 in
  let t6 := t4 * t2 in
  let nuk0 := nu * k0 in
  let nuk02 := nuk0 * nuk0 in
  let nuk04 := nuk02 * nuk02 in
  let nuk06 := nuk04 * nuk02 in
  let t_rhonuk0k0 := t / (rho * nuk0 * k0) in
  let _nuck0 := #1 / (nu * c * k0) in
  let epc2 := ep2 * c2 in
  let epc4 := epc2 * epc2 in
  let epc6 := epc4 * epc2 in
  let epc8 := epc6 * epc2 in
  let T10 := t_rhonuk0k0 / #2 in
  let T11 := t_rhonuk0k0 / nuk02 * (#5 + #3 * t2 + epc2 - #4 * epc4 - #9 * t2 * epc2) / #24 in
  let T12 := t_rhonuk0k0 / nuk04 * (#61 + #90 * t2 + #46 * epc2 + #45 * t4 - #252 * t2 * epc2
                                    - #3 * epc4 + #100 * epc6 - #66 * t2 * epc4
                                    - #90 * t4 * epc2 + #88 * epc8 + #225 * t4 * epc4
                                    + #84 * t2 * epc6 - #192 * t2 * epc8) / #720 in
  let T13 := t_rhonuk0k0 / nuk06 * (#1385 + #3633 * t2 + #4095 * t4 + #1575 * t6) / #40320 in
  let T14 := _nuck0 in
  let T15 := _nuck0 / nuk02 * (#1 + #2 * t2 + epc2) / #6 in
  let T16 := _nuck0 / nuk04 * (#5 + #6 * epc2 + #28 * t2 - #3 * epc4 + #8 * t2 * epc2
                               + #24 * t4 - #4 * epc6 + #4 * t2 * epc4 + #24 * t2 * epc6) / #120 in
  let T17 := _nuck0 / nuk06 * (#61 + #662 * t2 + #1320 * t4 + #720 * t6) / #5040 in
  let x2 := x * x in
  let x4 := x2 * x2 in
  let x6 := x4 * x2 in
  let x8 := x6 * x2 in
  let lat_rad := phi - x2 * T10 + x4 * T11 - x6 * T12 + x8 * T13 in
  let lon_rad := lon_mer + x * (T14 - x2 * T15 + x4 * T16 - x6 * T17) in
  (lat_rad, lon_rad).

(** [dmatm_tm_to_geographic]: [Some (lat_rad, lon_rad)] when the loop has left
    within [fuel] evaluations of its body, [None] when it is still running. *)
Definition dmatm_tm_to_geographic (fuel : nat) (a e2 k0 lon_mer FN FE N E : T)
    : option (T * T) :=
  let f := #1 - sqrt (#1 - e2) in
  let n := f / (#2 - f) in
  let b := a * (#1 - f) in
  let x := E - FE in
  let y := N - FN in
  let phi := y / b / k0 in
  match dmatm_phi_loop fuel a n k0 y phi with
  | None => None
  | Some (phi, s) => Some (dmatm_tm_to_geographic_tail a e2 k0 lon_mer x phi s)
  end.

(** ** Polar stereographic projection of the ellipsoid *)

(** [out] is the content of [( *N, *E )] before the call.  [*E] is always
    assigned; [*N] only for [HEMI_NORTH] and [HEMI_SOUTH]. *)
Definition geographic_to_ps (a e2 k0 : T) (hemi : Hemisphere)
    (FN FE lat_rad lon_rad : T) (out : T * T) : T * T :=
  let e := sqrt e2 in
  let C0 := #2 * a / sqrt (#1 - e2) * pow ((#1 - e) / (#1 + e)) (e / #2) in
  let s_lat := sin lat_rad in
  let tanzhalf :=
    if Hemisphere_eqb hemi HEMI_NORTH
    then pow ((#1 + e * s_lat) / (#1 - e * s_lat)) (e / #2) * tan (M_PI / #4 - lat_rad / #2)
    else pow ((#1 - e * s_lat) / (#1 + e * s_lat)) (e / #2) * tan (M_PI / #4 + lat_rad / #2) in
  let R := k0 * C0 * tanzhalf in
  let E := FE + R * sin lon_rad in
  let N :=
    if Hemisphere_eqb hemi HEMI_NORTH then FN - R * cos lon_rad
    else if Hemisphere_eqb hemi HEMI_SOUTH then FN + R * cos lon_rad
    else fst out in
  (N, E).

(** [out] is the content of [( *lat_rad, *lon_rad )] before the call; the
    function reads [*lon_rad] back when neither [x] nor [y] is zero. *)
Definition ps_to_geographic (a e2 k0 : T) (hemi : Hemisphere)
    (FN FE N E : T) (out : T * T) : T * T :=
  let e := sqrt e2 in
  let C0 := #2 * a / sqrt (#1 - e2) * pow ((#1 - e) / (#1 + e)) (e / #2) in
  let e4 := e2 * e2 in
  let e6 := e4 * e2 in
  let e8 := e6 * e2 in
  let Abar := e2 / #2 + #5 * e4 / #24 + e6 / #12 + #13 * e8 / #360 in
  let Bbar := #7 * e4 / #48 + #29 * e6 / #240 + #811 * e8 / #11520 in
  let Cbar := #7 * e6 / #120 + #81 * e8 / #1120 in
  let Dbar := #4279 * e8 / #161280 in
  let x := E - FE in
  let y := N - FN in
  if (x ==? #0) && (y ==? #0) then
    let lon_rad := #0 in
    let lat_rad :=
      if Hemisphere_eqb hemi HEMI_NORTH then M_PI / #2
      else if Hemisphere_eqb hemi HEMI_SOUTH then - M_PI / #2
      else fst out in
    (lat_rad, lon_rad)
  else
    let lon_rad :=
      if Hemisphere_eqb hemi HEMI_NORTH then atan2 x (- y)
      else if Hemisphere_eqb hemi HEMI_SOUTH then atan2 x y
      else snd out in
    let R :=
      if y ==? #0 then fabs x
      else if x ==? #0 then fabs y
      else fabs (x / sin lon_rad) in
    let tanzhalf := R / (k0 * C0) in
    let chi := M_PI / #2 - #2 * atan tanzhalf in
    let s2chi := sin (#2 * chi) in
    let c2chi := cos (#2 * chi) in
    let s4chi := #2 * s2chi * c2chi in
    let c4chi := c2chi * c2chi - s2chi * s2chi in
    let s6chi := s4chi * c2chi + s2chi * c4chi in
    let s8chi := #2 * s4chi * c4chi in
    let phi := chi + Abar * s2chi + Bbar * s4chi + Cbar * s6chi + Dbar * s8chi in
    let lat_rad :=
      if Hemisphere_eqb hemi HEMI_NORTH then phi
      else if Hemisphere_eqb hemi HEMI_SOUTH then - phi
      else fst out in
    (lat_rad, lon_rad).

(** ** The UTM/UPS grid *)

(** [#define RAD(x) ((x)/180.0*M_PI)], used with integer arguments only. *)
Definition RAD (x : Z) : T := #x / #180 * M_PI.

Definition UTM_K0 : T := #9996 / #10000.
Definition UTM_FN_NH : T := #0.
Definition UTM_FN_SH : T := #10000000.
Definition UTM_FE : T := #500000.

Definition UPS_K0 : T := #994 / #1000.
Definition UPS_FN : T := #2000000.
Definition UPS_FE : T := #2000000.

(** The variables behind the pointers [zone], [hemi], [N] and [E]. *)
Record grid_vars : Type := {
  gv_zone : GridZone;
  gv_hemi : Hemisphere;
  gv_N : T;
  gv_E : T
}.

(** The longitude after the normalisation at the head of [geographic_to_grid]. *)
Definition normalize_lon (lon_rad : T) : T :=
  if (lon_rad >? RAD 180) || (lon_rad <? RAD (-180)) then
    let lon_rad := fmod (fmod lon_rad (RAD 360) + RAD 360) (RAD 360) in
    if lon_rad >? RAD 180 then lon_rad - RAD 360 else lon_rad
  else lon_rad.

(** [*zone] after [if( *zone == GRID_AUTO) { ... }]. *)
Definition resolve_grid_auto (lat_rad : T) (zone : GridZone) : GridZone :=
  if (zone =? GRID_AUTO)%Z then
    if lat_rad >=? RAD 84 then UPS_NORTH
    else if lat_rad <? RAD (-80) then UPS_SOUTH
    else UTM_ZONE_AUTO
  else zone.

(** [lon_mer = (double)(izone-1) * RAD(6) - RAD(180) + RAD(3)] *)
Definition utm_lon_mer (izone : Z) : T :=
  #(wrap32 (izone - 1)) * RAD 6 - RAD 180 + RAD 3.

(** [izone] at the assignment [*zone = (GridZone)izone], utm.cpp version 2.0:
    the 72-84 degree block hangs on the [else] of the range test of the
    requested zone. *)
Definition utm_izone (lat_rad lon_rad : T) (zone : GridZone) : Z :=
  let izone := unsigned_of_GridZone zone in
  if (izone <? 1)%Z || (izone >? 60)%Z then
    let izone := wrap32 (to_unsigned ((lon_rad + RAD 180) / RAD 6) + 1) in
    if (lat_rad >=? RAD 56) && (lat_rad <? RAD 64)
       && (lon_rad >=? RAD 3) && (lon_rad <? RAD 12)
    then 32%Z else izone
  else if (lat_rad >=? RAD 72) && (lat_rad <? RAD 84) && (lon_rad >=? RAD 0) then
    if lon_rad <? RAD 9 then 31%Z
    else if lon_rad <? RAD 21 then 33%Z
    else if lon_rad <? RAD 33 then 35%Z
    else if lon_rad <? RAD 42 then 37%Z
    else izone
  else izone.

Definition geographic_to_grid (a e2 lat_rad lon_rad : T) (v : grid_vars)
    : Z * grid_vars :=
  if (lat_rad >? RAD 90) || (lat_rad <? RAD (-90)) then (0%Z, v)
  else
    let lon_rad := normalize_lon lon_rad in
    let zone := resolve_grid_auto lat_rad (gv_zone v) in
    if (zone =? UPS_NORTH)%Z || (zone =? UPS_SOUTH)%Z then
      let hemi := if (zone =? UPS_NORTH)%Z then HEMI_NORTH else HEMI_SOUTH in
      let '(N, E) :=
        if e2 !=? #0
        then geographic_to_ps a e2 UPS_K0 hemi UPS_FN UPS_FE lat_rad lon_rad (gv_N v, gv_E v)
        else geographic_to_ps_sphere a UPS_K0 hemi UPS_FN UPS_FE lat_rad lon_rad
               (gv_N v, gv_E v) in
      (1%Z, {| gv_zone := zone; gv_hemi := hemi; gv_N := N; gv_E := E |})
    else
      let izone := utm_izone lat_rad lon_rad zone in
      let zone := GridZone_of_unsigned izone in
      let hemi :=
        if negb (Hemisphere_eqb (gv_hemi v) HEMI_NORTH)
           && negb (Hemisphere_eqb (gv_hemi v) HEMI_SOUTH)
        then (if lat_rad >=? #0 then HEMI_NORTH else HEMI_SOUTH)
        else gv_hemi v in
      let lon_mer := utm_lon_mer izone in
      let fn := if Hemisphere_eqb hemi HEMI_NORTH then UTM_FN_NH else UTM_FN_SH in
      let '(N, E) :=
        if e2 !=? #0
        then geographic_to_tm a e2 UTM_K0 lon_mer fn UTM_FE lat_rad lon_rad
        else geographic_to_tm_sphere a UTM_K0 lon_mer fn UTM_FE lat_rad lon_rad in
      (1%Z, {| gv_zone := zone; gv_hemi := hemi; gv_N := N; gv_E := E |}).

(** [out] is the content of [( *lat_rad, *lon_rad )] before the call. *)
Definition grid_to_geographic (a e2 : T) (zone : GridZone) (hemi : Hemisphere)
    (N E : T) (out : T * T) : Z * (T * T) :=
  if (zone =? UPS_NORTH)%Z || (zone =? UPS_SOUTH)%Z then
    let hemi := if (zone =? UPS_NORTH)%Z then HEMI_NORTH else HEMI_SOUTH in
    (1%Z, if e2 !=? #0
          then ps_to_geographic a e2 UPS_K0 hemi UPS_FN UPS_FE N E out
          else ps_to_geographic_sphere a UPS_K0 hemi UPS_FN UPS_FE N E out)
  else
    let izone := unsigned_of_GridZone zone in
    if (izone <? 1)%Z || (izone >? 60)%Z then (0%Z, out)
    else if negb (Hemisphere_eqb hemi HEMI_NORTH) && negb (Hemisphere_eqb hemi HEMI_SOUTH)
    then (0%Z, out)
    else
      let lon_mer := utm_lon_mer izone in
      let fn := if Hemisphere_eqb hemi HEMI_NORTH then UTM_FN_NH else UTM_FN_SH in
      (1%Z, if e2 !=? #0
            then tm_to_geographic a e2 UTM_K0 lon_mer fn UTM_FE N E
            else tm_to_geographic_sphere a UTM_K0 lon_mer fn UTM_FE N E).

(** *** utm.cpp version 1.1 (2015), the file before the Karney/Kawase rewrite

    Its [geographic_to_tm] is the function version 2.0 keeps under the name
    [dmatm_geographic_to_tm]; its polar functions are unchanged in 2.0. *)

Definition utm_izone_1_1 (lat_rad lon_rad : T) (zone : GridZone) : Z :=
  let izone := unsigned_of_GridZone zone in
  if (izone <? 1)%Z || (izone >? 60)%Z then
    let izone := wrap32 (to_unsigned ((lon_rad + RAD 180) / RAD 6) + 1) in
    if (lat_rad >=? RAD 56) && (lat_rad <? RAD 64)
       && (lon_rad >=? RAD 3) && (lon_rad <? RAD 12)
    then 32%Z
    else if (lat_rad >=? RAD 72) && (lat_rad <? RAD 84) && (lon_rad >=? RAD 0) then
      if lon_rad <? RAD 9 then 31%Z
      else if lon_rad <? RAD 21 then 33%Z
      else if lon_rad <? RAD 33 then 35%Z
      else if lon_rad <? RAD 42 then 37%Z
      else izone
    else izone
  else izone.

Definition geographic_to_grid_1_1 (a e2 lat_rad lon_rad : T) (v : grid_vars)
    : Z * grid_vars :=
  if (lat_rad >? RAD 90) || (lat_rad <? RAD (-90)) then (0%Z, v)
  else
    let lon_rad := normalize_lon lon_rad in
    let zone := resolve_grid_auto lat_rad (gv_zone v) in
    if (zone =? UPS_NORTH)%Z || (zone =? UPS_SOUTH)%Z then
      let hemi := if (zone =? UPS_NORTH)%Z then HEMI_NORTH else HEMI_SOUTH in
      let '(N, E) :=
        if e2 !=? #0
        then geographic_to_ps a e2 UPS_K0 hemi UPS_FN UPS_FE lat_rad lon_rad (gv_N v, gv_E v)
        else geographic_to_ps_sphere a UPS_K0 hemi UPS_FN UPS_FE lat_rad lon_rad
               (gv_N v, gv_E v) in
      (1%Z, {| gv_zone := zone; gv_hemi := hemi; gv_N := N; gv_E := E |})
    else
      let izone := utm_izone_1_1 lat_rad lon_rad zone in
      let zone := GridZone_of_unsigned izone in
      let hemi :=
        if negb (Hemisphere_eqb (gv_hemi v) HEMI_NORTH)
           && negb (Hemisphere_eqb (gv_hemi v) HEMI_SOUTH)
        then (if lat_rad >=? #0 then HEMI_NORTH else HEMI_SOUTH)
        else gv_hemi v in
      let lon_mer := utm_lon_mer izone in
      let fn := if Hemisphere_eqb hemi HEMI_NORTH then UTM_FN_NH else UTM_FN_SH in
      let '(N, E) :=
        if e2 !=? #0
        then dmatm_geographic_to_tm a e2 UTM_K0 lon_mer fn UTM_FE lat_rad lon_rad
        else geographic_to_tm_sphere a UTM_K0 lon_mer fn UTM_FE lat_rad lon_rad in
      (1%Z, {| gv_zone := zone; gv_hemi := hemi; gv_N := N; gv_E := E |}).

End Projections.

Arguments grid_vars : clear implicits.
Arguments tm_point : clear implicits.

(** * IEEE-754 binary64: the arithmetic of the compiled code *)

Module Binary64.

Local Open Scope float_scope.

(** The functions of <math.h> whose results the C standard does not fix to
    the last bit.  ([sqrt] and [fabs] are exact IEEE operations and are
    taken from the primitive floats.) *)
Class Libm : Type := {
  m_sin : float -> float;
  m_cos : float -> float;
  m_tan : float -> float;
  m_asin : float -> float;
  m_atan : float -> float;
  m_atan2 : float -> float -> float;
  m_sinh : float -> float;
  m_cosh : float -> float;
  m_atanh : float -> float;
  m_pow : float -> float -> float;
  m_fmod : float -> float -> float
}.

(** [(double)z] for an [int] or [unsigned] [z] (round to nearest). *)
Definition float_of_Z (z : Z) : float :=
  match z with
  | Z0 => 0
  | Zpos _ => of_uint63 (Uint63.of_Z z)
  | Zneg p => - of_uint63 (Uint63.of_Z (Zpos p))
  end.

(** The integer part of a finite double (truncation towards zero). *)
Definition float_trunc (x : float) : option Z :=
  match Prim2SF x with
  | S754_zero _ => Some 0%Z
  | S754_finite s m e =>
      let v := if (0 <=? e)%Z then (Zpos m * 2 ^ e)%Z else (Zpos m / 2 ^ (- e))%Z in
      Some (if s then (- v)%Z else v)
  | S754_infinity _ | S754_nan => None
  end.

(** [(unsigned)x]: the integer part when it fits 32 bits.  C leaves the other
    conversions (NaN, infinities, integer part outside 0 .. 2^32-1) undefined;
    the model returns 0 there. *)
Definition float_to_unsigned (x : float) : Z :=
  match float_trunc x with
  | Some v => if (0 <=? v)%Z && (v <? 2 ^ 32)%Z then v else 0%Z
  | None => 0%Z
  end.

(** The literal [3.14159265358979323846] of the macro [M_PI], rounded to
    binary64 as the compiler does. *)
Definition float_M_PI : float := 0x1.921fb54442d18p+1.

#[export] Instance num (m : Libm) : Num float := {|
  of_Z := float_of_Z;
  to_unsigned := float_to_unsigned;
  add := PrimFloat.add;
  sub := PrimFloat.sub;
  mul := PrimFloat.mul;
  div := PrimFloat.div;
  opp := PrimFloat.opp;
  ltb := PrimFloat.ltb;
  leb := PrimFloat.leb;
  eqb := PrimFloat.eqb;
  M_PI := float_M_PI;
  sqrt := PrimFloat.sqrt;
  fabs := PrimFloat.abs;
  sin := @m_sin m;
  cos := @m_cos m;
  tan := @m_tan m;
  asin := @m_asin m;
  atan := @m_atan m;
  atan2 := @m_atan2 m;
  sinh := @m_sinh m;
  cosh := @m_cosh m;
  atanh := @m_atanh m;
  pow := @m_pow m;
  fmod := @m_fmod m
|}.

(** ** A reference libm

    An executable instance of [Libm] (argument reduction and Taylor
    polynomials, a few units in the last place), so that the embedding runs
    end to end on concrete inputs.  The theorems below that quantify over
    [Libm] do not depend on it. *)

Definition ln2_hi : float := 0x1.62e42fee00000p-1.
Definition ln2_lo : float := 0x1.a39ef35793c76p-33.
Definition pio2_hi : float := 0x1.921fb54442d18p+0.
Definition pio2_lo : float := 0x1.1a62633145c07p-54.

(** The nearest integer of a finite double, [None] for NaN and infinities. *)
Definition float_round (x : float) : option Z :=
  float_trunc (if x <? 0 then x - 0.5 else x + 0.5).

(** [n] steps of [acc := 1 + r/k * acc], [k] counting down: the Taylor
    polynomial of the exponential in Horner form. *)
Fixpoint exp_horner (n : nat) (k : float) (r acc : float) : float :=
  match n with
  | O => acc
  | S n' => exp_horner n' (k - 1) r (1 + r / k * acc)
  end.

Definition ref_exp (x : float) : float :=
  if 710 <? x then infinity
  else if x <? -746 then 0
  else
    match float_round (x / (ln2_hi + ln2_lo)) with
    | None => x + x
    | Some k =>
        let kf := float_of_Z k in
        let r := (x - kf * ln2_hi) - kf * ln2_lo in
        Z.ldexp (exp_horner 22 22 r 1) k
    end.

(** [sum_{i<n} u2^i / (2i+1)], from the last term inwards *)
Fixpoint odd_recip_series (n : nat) (d : float) (u2 acc : float) : float :=
  match n with
  | O => acc
  | S n' => odd_recip_series n' (d - 2) u2 (1 / d + u2 * acc)
  end.

Definition ref_log (x : float) : float :=
  if x <? 0 then nan
  else if x =? 0 then neg_infinity
  else if x =? infinity then infinity
  else if negb (x =? x) then x
  else
    let '(m, e) := Z.frexp x in
    let '(m, e) := if m <? 0x1.6a09e667f3bcdp-1 then (2 * m, (e - 1)%Z) else (m, e) in
    let u := (m - 1) / (m + 1) in
    let lnm := 2 * u * odd_recip_series 16 31 (u * u) 0 in
    let ef := float_of_Z e in
    ef * ln2_hi + (lnm + ef * ln2_lo).

(** [sum_i (-1)^i r^(2i+1)/(2i+1)!] and [sum_i (-1)^i r^(2i)/(2i)!] *)
Fixpoint trig_horner (n : nat) (k : float) (r2 acc : float) : float :=
  match n with
  | O => acc
  | S n' => trig_horner n' (k - 2) r2 (1 - r2 / (k * (k - 1)) * acc)
  end.

Definition sin_kernel (r : float) : float := r * trig_horner 10 21 (r * r) 1.
Definition cos_kernel (r : float) : float := trig_horner 10 20 (r * r) 1.

Definition trig_reduce (x : float) : option (Z * float) :=
  match float_round (x / (pio2_hi + pio2_lo)) with
  | None => None
  | Some k =>
      let kf := float_of_Z k in
      Some ((k mod 4)%Z, (x - kf * pio2_hi) - kf * pio2_lo)
  end.

Definition ref_sin (x : float) : float :=
  match trig_reduce x with
  | None => nan
  | Some (q, r) =>
      if (q =? 0)%Z then sin_kernel r
      else if (q =? 1)%Z then cos_kernel r
      else if (q =? 2)%Z then - sin_kernel r
      else - cos_kernel r
  end.

Definition ref_cos (x : float) : float :=
  match trig_reduce x with
  | None => nan
  | Some (q, r) =>
      if (q =? 0)%Z then cos_kernel r
      else if (q =? 1)%Z then - sin_kernel r
      else if (q =? 2)%Z then - cos_kernel r
      else sin_kernel r
  end.

Definition ref_tan (x : float) : float := ref_sin x / ref_cos x.

(** [sum_{i<n} (-u2)^i / (2i+1)] *)
Fixpoint atan_series (n : nat) (d : float) (u2 acc : float) : float :=
  match n with
  | O => acc
  | S n' => atan_series n' (d - 2) u2 (1 / d - u2 * acc)
  end.

Definition atan_small (x : float) : float :=
  (* |x| <= 1: two halvings of the angle, then the series *)
  let h1 := x / (1 + PrimFloat.sqrt (1 + x * x)) in
  let h2 := h1 / (1 + PrimFloat.sqrt (1 + h1 * h1)) in
  4 * (h2 * atan_series 16 31 (h2 * h2) 0).

Definition ref_atan (x : float) : float :=
  if negb (x =? x) then x
  else if 1 <? x then (pio2_hi - atan_small (1 / x)) + pio2_lo
  else if x <? -1 then (- pio2_hi - atan_small (1 / x)) - pio2_lo
  else atan_small x.

Definition ref_asin (x : float) : float := ref_atan (x / PrimFloat.sqrt (1 - x * x)).

Definition ref_atan2 (y x : float) : float :=
  if negb (x =? x) || negb (y =? y) then nan
  else if 0 <? x then ref_atan (y / x)
  else if x <? 0 then
    (if (y <? 0) || (1 / y <? 0) then ref_atan (y / x) - float_M_PI
     else ref_atan (y / x) + float_M_PI)
  else if 0 <? y then pio2_hi
  else if y <? 0 then - pio2_hi
  else (* both zero *)
    if 1 / x <? 0 then (if 1 / y <? 0 then - float_M_PI else float_M_PI) else y.

(** [sum_i r^(2i+1)/(2i+1)!] *)
Fixpoint hyp_horner (n : nat) (k : float) (r2 acc : float) : float :=
  match n with
  | O => acc
  | S n' => hyp_horner n' (k - 2) r2 (1 + r2 / (k * (k - 1)) * acc)
  end.

Definition ref_sinh (x : float) : float :=
  if PrimFloat.abs x <? 0.5 then x * hyp_horner 9 19 (x * x) 1
  else (ref_exp x - ref_exp (- x)) / 2.

Definition ref_cosh (x : float) : float := (ref_exp x + ref_exp (- x)) / 2.

Fixpoint atanh_series (n : nat) (d : float) (u2 acc : float) : float :=
  match n with
  | O => acc
  | S n' => atanh_series n' (d - 2) u2 (1 / d + u2 * acc)
  end.

Definition ref_atanh (x : float) : float :=
  if PrimFloat.abs x <? 0.25 then x * atanh_series 16 31 (x * x) 0
  else ref_log ((1 + x) / (1 - x)) / 2.

Definition ref_pow (x y : float) : float :=
  if y =? 0 then 1
  else if x =? 0 then (if 0 <? y then 0 else infinity)
  else ref_exp (y * ref_log x).

(** [fmod] is exact: the remainder of the integer division of the two
    significands brought to the smaller exponent, with the sign of [x]. *)
Definition ref_fmod (x y : float) : float :=
  match Prim2SF x, Prim2SF y with
  | S754_nan, _ | _, S754_nan | S754_infinity _, _ | _, S754_zero _ => nan
  | _, S754_infinity _ | S754_zero _, _ => x
  | S754_finite sx mx ex, S754_finite _ my ey =>
      let e := Z.min ex ey in
      let X := (Zpos mx * 2 ^ (ex - e))%Z in
      let Y := (Zpos my * 2 ^ (ey - e))%Z in
      let r := (X mod Y)%Z in
      SF2Prim (binary_normalize prec emax (if sx then (- r)%Z else r) e sx)
  end.

Definition libm_ref : Libm := {|
  m_sin := ref_sin; m_cos := ref_cos; m_tan := ref_tan;
  m_asin := ref_asin; m_atan := ref_atan; m_atan2 := ref_atan2;
  m_sinh := ref_sinh; m_cosh := ref_cosh; m_atanh := ref_atanh;
  m_pow := ref_pow; m_fmod := ref_fmod
|}.


(** The ellipsoids of the worked examples of the test program (DMATM 8358.2,
    tables 2-11 and 3-7): [a = 6378388.0, e2 = 0.006722670022] and
    [a = 6378137.0, e2 = 0.006694379990]. *)
Definition a_International : float := 6378388.
Definition e2_International : float := 6722670022 / 1000000000000.
Definition a_WGS84 : float := 6378137.
Definition e2_WGS84 : float := 6694379990 / 1000000000000.

(** [fabs(x - y) < tol], to compare the results of runs. *)
Definition near (x y tol : float) : bool := PrimFloat.abs (x - y) <? tol.

End Binary64.

(** * Exact arithmetic: the formulas over the real numbers *)

Module Exact.

Local Open Scope R_scope.

Definition Rltb (x y : R) : bool := if Rlt_dec x y then true else false.
Definition Rleb (x y : R) : bool := if Rle_dec x y then true else false.
Definition Reqb (x y : R) : bool := if Req_dec_T x y then true else false.

(** [(unsigned)x]: the integer part when it fits 32 bits, and 0 where C leaves
    the conversion undefined. *)
Definition R_to_unsigned (x : R) : Z :=
  if Rle_dec 0 x then (if Rlt_dec x 4294967296 then Zfloor x else 0%Z) else 0%Z.

Definition Ztrunc (x : R) : Z :=
  if Rle_dec 0 x then Zfloor x else (- Zfloor (- x))%Z.

Definition Ratanh (x : R) : R := ln ((1 + x) / (1 - x)) / 2.

Definition Ratan2 (y x : R) : R :=
  if Rlt_dec 0 x then Ratan.atan (y / x)
  else if Rlt_dec x 0 then
    (if Rlt_dec y 0 then Ratan.atan (y / x) - PI else Ratan.atan (y / x) + PI)
  else if Rlt_dec 0 y then PI / 2
  else if Rlt_dec y 0 then - (PI / 2)
  else 0.

Definition Rpow (x y : R) : R :=
  if Req_dec_T y 0 then 1
  else if Rlt_dec 0 x then Rpower x y
  else 0.

Definition Rfmod (x y : R) : R := x - IZR (Ztrunc (x / y)) * y.

#[export] Instance num : Num R := {|
  of_Z := IZR;
  to_unsigned := R_to_unsigned;
  add := Rplus;
  sub := Rminus;
  mul := Rmult;
  div := Rdiv;
  opp := Ropp;
  ltb := Rltb;
  leb := Rleb;
  eqb := Reqb;
  M_PI := PI;
  sqrt := R_sqrt.sqrt;
  fabs := Rabs;
  sin := Rtrigo_def.sin;
  cos := Rtrigo_def.cos;
  tan := Rtrigo1.tan;
  asin := Ratan.asin;
  atan := Ratan.atan;
  atan2 := Ratan2;
  sinh := Rtrigo_def.sinh;
  cosh := Rtrigo_def.cosh;
  atanh := Ratanh;
  pow := Rpow;
  fmod := Rfmod
|}.

End Exact.

(** * datum.h, datum.cpp: the reference ellipsoids *)

(** [enum EllipseID]: an integer, as the code casts it to [unsigned]. *)
Definition EllipseID := Z.
Definition ELLIPSE_AA : EllipseID := 0%Z.
Definition ELLIPSE_AN : EllipseID := 1%Z.
Definition ELLIPSE_BR : EllipseID := 2%Z.
Definition ELLIPSE_BN : EllipseID := 3%Z.
Definition ELLIPSE_CC : EllipseID := 4%Z.
Definition ELLIPSE_CD : EllipseID := 5%Z.
Definition ELLIPSE_EB : EllipseID := 6%Z.
Definition ELLIPSE_EA : EllipseID := 7%Z.
Definition ELLIPSE_EC : EllipseID := 8%Z.
Definition ELLIPSE_EF : EllipseID := 9%Z.
Definition ELLIPSE_EE : EllipseID := 10%Z.
Definition ELLIPSE_ED : EllipseID := 11%Z.
Definition ELLIPSE_RF : EllipseID := 12%Z.
Definition ELLIPSE_HE : EllipseID := 13%Z.
Definition ELLIPSE_HO : EllipseID := 14%Z.
Definition ELLIPSE_ID : EllipseID := 15%Z.
Definition ELLIPSE_IN : EllipseID := 16%Z.
Definition ELLIPSE_KA : EllipseID := 17%Z.
Definition ELLIPSE_AM : EllipseID := 18%Z.
Definition ELLIPSE_FA : EllipseID := 19%Z.
Definition ELLIPSE_SA : EllipseID := 20%Z.
Definition ELLIPSE_WD : EllipseID := 21%Z.
Definition ELLIPSE_WE : EllipseID := 22%Z.

(** The aliases datum.h defines. *)
Definition ELLIPSE_AUSTRALIAN : EllipseID := ELLIPSE_AN.
Definition ELLIPSE_BESSEL : EllipseID := ELLIPSE_BR.
Definition ELLIPSE_CLARKE_1866 : EllipseID := ELLIPSE_CC.
Definition ELLIPSE_CLARKE_1880 : EllipseID := ELLIPSE_CD.
Definition ELLIPSE_GRS80 : EllipseID := ELLIPSE_EF.
Definition ELLIPSE_INT24 : EllipseID := ELLIPSE_IN.
Definition ELLIPSE_WGS72 : EllipseID := ELLIPSE_WD.
Definition ELLIPSE_WGS84 : EllipseID := ELLIPSE_WE.

Section Datum.

Context {T : Type} {num : Num T}.
Local Open Scope num_scope.

(** [struct StandardEllipse] *)
Record StandardEllipse : Type := {
  se_name : string;
  se_id_code : string;
  se_a : T;
  se_e2 : T
}.

(** [#define ECC2(f) (2.0*(1.0-1.0/(f))/(f))] *)
Definition ECC2 (f : T) : T := #2 * (#1 - #1 / f) / f.

(** An initialiser [{ name, id_code, a, ECC2(f) }] of the table. *)
Definition std_ellipse (name id_code : string) (a f : T) : StandardEllipse :=
  {| se_name := name; se_id_code := id_code; se_a := a; se_e2 := ECC2 f |}.

(** [static StandardEllipse reference_ellipse[]].  A decimal constant is
    written as the quotient of two integers that binary64 holds exactly: the
    division rounds it as the compiler rounds the constant. *)
Definition reference_ellipse : list StandardEllipse :=
  [ std_ellipse "Airy 1830" "AA" (#6377563396 / #1000) (#2993249646 / #10000000);
    std_ellipse "Australian National" "AN" #6378160 (#29825 / #100);
    std_ellipse "Bessel 1841, Ethiopia, Indonesia, Japan and Korea" "BR"
      (#6377397155 / #1000) (#2991528128 / #10000000);
    std_ellipse "Bessel 1841, Namibia" "BN" (#6377483865 / #1000) (#2991528128 / #10000000);
    std_ellipse "Clarke 1866" "CC" (#63782064 / #10) (#2949786982 / #10000000);
    std_ellipse "Clarke 1880" "CD" (#6378249145 / #1000) (#293465 / #1000);
    std_ellipse "Everest, Brunei and E. Malaysia (Sabah and Sarawak)" "EB"
      (#6377298556 / #1000) (#3008017 / #10000);
    std_ellipse "Everest, India 1830" "EA" (#6377276345 / #1000) (#3008017 / #10000);
    std_ellipse "Everest, India 1956" "EC" (#6377301243 / #1000) (#3008017 / #10000);
    std_ellipse "Everest, Pakistan" "EF" (#6377309613 / #1000) (#3008017 / #10000);
    std_ellipse "Everest, W. Malaysia and Singapore 1948" "EE"
      (#6377304063 / #1000) (#3008017 / #10000);
    std_ellipse "Everest, W. Malaysia 1969" "ED" (#6377295664 / #1000) (#3008017 / #10000);
    std_ellipse "Geodetic Reference System 1980" "RF" #6378137
      (#298257222101 / #1000000000);
    std_ellipse "Helmert 1906" "HE" #6378200 (#2983 / #10);
    std_ellipse "Hough 1960" "HO" #6378270 #297;
    std_ellipse "Indonesian 1974" "ID" #6378160 (#298247 / #1000);
    std_ellipse "International 1924" "IN" #6378388 #297;
    std_ellipse "Krassovsky 1940" "KA" #6378245 (#2983 / #10);
    std_ellipse "Modified Airy" "AM" (#6377340189 / #1000) (#2993249646 / #10000000);
    std_ellipse "Modified Fischer 1960" "FA" #6378155 (#2983 / #10);
    std_ellipse "South American 1969" "SA" #6378160 (#29825 / #100);
    std_ellipse "WGS 1972" "WD" #6378135 (#29826 / #100);
    std_ellipse "WGS 1984" "WE" #6378137 (#298257223563 / #1000000000) ].

(** [NUMOF(reference_ellipse)] *)
Definition NUMOF_reference_ellipse : Z := Z.of_nat (List.length reference_ellipse).

(** [_precompiled_ellipse]: the entry the returned pointer points to. *)
Definition _precompiled_ellipse (id : EllipseID) : StandardEllipse :=
  let iid := wrap32 id in
  let iid := if (iid >=? NUMOF_reference_ellipse)%Z then wrap32 ELLIPSE_WGS84 else iid in
  nth (Z.to_nat iid) reference_ellipse (std_ellipse "" "" #0 #0).

(** The identification code of the entry an identifier selects. *)
Definition id_code_of (id : EllipseID) : string := se_id_code (_precompiled_ellipse id).

End Datum.

Arguments StandardEllipse : clear implicits.

(** * The test program: angles as text *)

(** [(c>='0')&&(c<='9')] and [c-'0'] *)
Definition is_digit (c : ascii) : bool := (Ascii.leb "0" c && Ascii.leb c "9")%char.
Definition digit_of (c : ascii) : Z := (Z.of_N (N_of_ascii c) - 48)%Z.

(** The four loops of [dmsStringToRad].  Each runs from the current index
    [i] to the end of the string or to its [break]; the model carries the
    part of the string from [i] on ([i] is an [unsigned]: this is the
    function on strings of fewer than 2^32 characters).  [None] is
    [return false]; [Some] holds the unsigned counters, which wrap at 2^32,
    and the rest of the string. *)
Fixpoint scan_degs (degs : Z) (s : string) : option (Z * string) :=
  match s with
  | EmptyString => Some (degs, s)
  | String c s' =>
      if is_digit c then scan_degs (wrap32 (degs * 10 + digit_of c)) s'
      else if (c =? ":")%char || (c =? "d")%char then Some (degs, s')
      else None
  end.

Fixpoint scan_mins (mins : Z) (s : string) : option (Z * string) :=
  match s with
  | EmptyString => Some (mins, s)
  | String c s' =>
      if is_digit c then scan_mins (wrap32 (mins * 10 + digit_of c)) s'
      else if (c =? ":")%char || (c =? "m")%char then Some (mins, s')
      else None
  end.

(** In the third loop [s] leaves the loop without being consumed. *)
Fixpoint scan_secs (secs : Z) (s : string) : option (Z * string) :=
  match s with
  | EmptyString => Some (secs, s)
  | String c s' =>
      if is_digit c then scan_secs (wrap32 (secs * 10 + digit_of c)) s'
      else if (c =? ".")%char then Some (secs, s')
      else if (c =? "s")%char then Some (secs, s)
      else None
  end.

Fixpoint scan_fracs (fracs frac10s : Z) (s : string) : option (Z * Z * string) :=
  match s with
  | EmptyString => Some (fracs, frac10s, s)
  | String c s' =>
      if is_digit c
      then scan_fracs (wrap32 (fracs * 10 + digit_of c)) (wrap32 (frac10s * 10)) s'
      else if (c =? "s")%char then Some (fracs, frac10s, s')
      else None
  end.

Section AngleText.

Context {T : Type} {num : Num T}.
Local Open Scope num_scope.

(** The value assigned to [rad]. *)
Definition dms_value (negative : bool) (degs mins secs fracs frac10s : Z) : T :=
  #(if negative then -1 else 1)
  * (#degs + #mins / #60 + #secs / #(60 * 60) + #fracs / #frac10s / #(60 * 60))
  / #180 * M_PI.

(** [dmsStringToRad]: the returned [bool] and the content of [rad] on return
    ([rad] is the content before the call). *)
Definition dmsStringToRad (str : string) (rad : T) : bool * T :=
  let '(negative, s) :=
    match str with
    | String "-" s' => (true, s')
    | String "+" s' => (false, s')
    | _ => (false, str)
    end in
  match scan_degs 0 s with
  | None => (false, rad)
  | Some (degs, s) =>
  match scan_mins 0 s with
  | None => (false, rad)
  | Some (mins, s) =>
  match scan_secs 0 s with
  | None => (false, rad)
  | Some (secs, s) =>
  match scan_fracs 0 1 s with
  | None => (false, rad)
  | Some (fracs, frac10s, s) =>
  match s with
  | String _ _ => (false, rad)
  | EmptyString => (true, dms_value negative degs mins secs fracs frac10s)
  end end end end end.

End AngleText.

(** [floor] of <math.h>, which the test program calls besides the functions
    of [Num]. *)
Class Floor (T : Type) : Type := floor : T -> T.

(** [floor] is exact in binary64. *)
Definition float_floor (x : float) : float :=
  match Binary64.float_trunc x with
  | None => x
  | Some z =>
      let fz := Binary64.float_of_Z z in
      if PrimFloat.eqb x fz then x
      else if PrimFloat.ltb x fz then Binary64.float_of_Z (z - 1) else fz
  end.

#[export] Instance float_Floor : Floor float := float_floor.
#[export] Instance R_Floor : Floor R := fun x => IZR (Zfloor x).







Section AngleFormat.

Context {T : Type} {num : Num T} {fl : Floor T}.
Local Open Scope num_scope.



End AngleFormat.

(** Notions for the statements about the two text functions: the characters
    [dmsStringToRad] lets through, a test on every character of a string, the
    value of a string of decimal digits read from the left into an
    [unsigned] that holds [acc], and the power of ten of its length, in an
    [unsigned] too. *)
Definition dms_char (c : ascii) : bool :=
  is_digit c
  || (c =? "+")%char || (c =? "-")%char || (c =? ":")%char || (c =? "d")%char
  || (c =? "m")%char || (c =? ".")%char || (c =? "s")%char.

Fixpoint all_chars (p : ascii -> bool) (s : string) : bool :=
  match s with
  | EmptyString => true
  | String c s' => p c && all_chars p s'
  end.

Fixpoint unsigned_decimal (acc : Z) (s : string) : Z :=
  match s with
  | EmptyString => acc
  | String c s' => unsigned_decimal (wrap32 (acc * 10 + digit_of c)) s'
  end.

Fixpoint unsigned_pow10 (acc : Z) (s : string) : Z :=
  match s with
  | EmptyString => acc
  | String _ s' => unsigned_pow10 (wrap32 (acc * 10)) s'
  end.

(** * Properties that hold in every arithmetic *)

Section Generic.

Context {T : Type} {num : Num T}.
Local Open Scope num_scope.

Lemma Hemisphere_eqb_eq (h1 h2 : Hemisphere) : Hemisphere_eqb h1 h2 = true <-> h1 = h2.
Proof. destruct h1, h2; simpl; split; congruence. Qed.

Lemma wrap32_small (z : Z) : (0 <= z < 2 ^ 32)%Z -> wrap32 z = z.
Proof. intros H. unfold wrap32. apply Z.mod_small. exact H. Qed.

Lemma GridZone_of_unsigned_small (z : Z) : (z < 2 ^ 31)%Z -> GridZone_of_unsigned z = z.
Proof.
  intros H. unfold GridZone_of_unsigned.
  destruct (Z.ltb_spec z (2 ^ 31)); [reflexivity | lia].
Qed.

Lemma unsigned_of_GridZone_range (z : GridZone) :
  (- 2 ^ 31 <= z < 2 ^ 31)%Z ->
  ((1 <= unsigned_of_GridZone z <= 60)%Z <-> (1 <= z <= 60)%Z).
Proof.
  unfold unsigned_of_GridZone, wrap32.
  change (2 ^ 32)%Z with 4294967296%Z. change (2 ^ 31)%Z with 2147483648%Z.
  intros H.
  destruct (Z.le_gt_cases 0 z) as [Hz | Hz].
  - rewrite Z.mod_small by lia. reflexivity.
  - pose proof (Z.mod_unique z 4294967296 (-1) (z + 4294967296)) as Hu.
    rewrite <- Hu by lia. lia.
Qed.

(** The [if]/[else] ladder of the function returns 0 on its first line or 1 at
    one of its two [return 1]. *)
Lemma geographic_to_grid_ret (a e2 lat_rad lon_rad : T) (v : grid_vars T) :
  geographic_to_grid a e2 lat_rad lon_rad v = (0%Z, v) /\
    (lat_rad >? RAD 90) || (lat_rad <? RAD (-90)) = true
  \/ fst (geographic_to_grid a e2 lat_rad lon_rad v) = 1%Z /\
    (lat_rad >? RAD 90) || (lat_rad <? RAD (-90)) = false.
Proof.
  unfold geographic_to_grid.
  destruct ((lat_rad >? RAD 90) || (lat_rad <? RAD (-90))).
  - left. split; reflexivity.
  - right. split; [| reflexivity].
    destruct ((resolve_grid_auto lat_rad (gv_zone v) =? UPS_NORTH)%Z
              || (resolve_grid_auto lat_rad (gv_zone v) =? UPS_SOUTH)%Z).
    + destruct (e2 !=? #0);
        [destruct (geographic_to_ps _ _ _ _ _ _ _ _ _) | destruct (geographic_to_ps_sphere _ _ _ _ _ _ _ _)];
        reflexivity.
    + destruct (e2 !=? #0);
        [destruct (geographic_to_tm _ _ _ _ _ _ _ _) | destruct (geographic_to_tm_sphere _ _ _ _ _ _ _)];
        reflexivity.
Qed.

(** The two [return 1] of [geographic_to_grid]: what the function hands back
    on the polar branch and on the UTM branch. *)
Lemma geographic_to_grid_ups (a e2 lat_rad lon_rad : T) (v : grid_vars T) :
  (lat_rad >? RAD 90) || (lat_rad <? RAD (-90)) = false ->
  let zone := resolve_grid_auto lat_rad (gv_zone v) in
  (zone =? UPS_NORTH)%Z || (zone =? UPS_SOUTH)%Z = true ->
  let lon := normalize_lon lon_rad in
  let hemi := if (zone =? UPS_NORTH)%Z then HEMI_NORTH else HEMI_SOUTH in
  let NE :=
    if e2 !=? #0
    then geographic_to_ps a e2 UPS_K0 hemi UPS_FN UPS_FE lat_rad lon (gv_N v, gv_E v)
    else geographic_to_ps_sphere a UPS_K0 hemi UPS_FN UPS_FE lat_rad lon (gv_N v, gv_E v) in
  geographic_to_grid a e2 lat_rad lon_rad v
    = (1%Z, {| gv_zone := zone; gv_hemi := hemi; gv_N := fst NE; gv_E := snd NE |}).
Proof.
  intros Hlat zone Hups lon hemi NE.
  unfold geographic_to_grid. rewrite Hlat. fold zone. rewrite Hups. fold lon. fold hemi.
  subst NE. destruct (e2 !=? #0).
  - destruct (geographic_to_ps _ _ _ _ _ _ _ _ _); reflexivity.
  - destruct (geographic_to_ps_sphere _ _ _ _ _ _ _ _); reflexivity.
Qed.

Lemma geographic_to_grid_utm (a e2 lat_rad lon_rad : T) (v : grid_vars T) :
  (lat_rad >? RAD 90) || (lat_rad <? RAD (-90)) = false ->
  let zone := resolve_grid_auto lat_rad (gv_zone v) in
  (zone =? UPS_NORTH)%Z || (zone =? UPS_SOUTH)%Z = false ->
  let lon := normalize_lon lon_rad in
  let izone := utm_izone lat_rad lon zone in
  let hemi :=
    if negb (Hemisphere_eqb (gv_hemi v) HEMI_NORTH)
       && negb (Hemisphere_eqb (gv_hemi v) HEMI_SOUTH)
    then (if lat_rad >=? #0 then HEMI_NORTH else HEMI_SOUTH)
    else gv_hemi v in
  let fn := if Hemisphere_eqb hemi HEMI_NORTH then UTM_FN_NH else UTM_FN_SH in
  let NE :=
    if e2 !=? #0
    then geographic_to_tm a e2 UTM_K0 (utm_lon_mer izone) fn UTM_FE lat_rad lon
    else geographic_to_tm_sphere a UTM_K0 (utm_lon_mer izone) fn UTM_FE lat_rad lon in
  geographic_to_grid a e2 lat_rad lon_rad v
    = (1%Z, {| gv_zone := GridZone_of_unsigned izone; gv_hemi := hemi;
               gv_N := fst NE; gv_E := snd NE |}).
Proof.
  intros Hlat zone Hups lon izone hemi fn NE.
  unfold geographic_to_grid. rewrite Hlat. fold zone. rewrite Hups. fold lon. fold izone.
  fold hemi. fold fn.
  subst NE. destruct (e2 !=? #0).
  - destruct (geographic_to_tm _ _ _ _ _ _ _ _); reflexivity.
  - destruct (geographic_to_tm_sphere _ _ _ _ _ _ _); reflexivity.
Qed.

(** C5.  [geographic_to_grid] returns 0 exactly when the latitude is above
    RAD(90) or below RAD(-90); it then leaves [*zone], [*hemi], [*N] and [*E]
    as they were; for every other latitude it returns 1, whatever the
    longitude and the zone and hemisphere requests. *)
Theorem geographic_to_grid_fails_iff_latitude_out_of_range
    (a e2 lat_rad lon_rad : T) (v : grid_vars T) :
  let out_of_range := (lat_rad >? RAD 90) || (lat_rad <? RAD (-90)) in
  let r := geographic_to_grid a e2 lat_rad lon_rad v in
  (fst r = 0%Z <-> out_of_range = true) /\
  (fst r = 0%Z -> snd r = v) /\
  (out_of_range = false -> fst r = 1%Z).
Proof.
  cbv zeta.
  destruct (geographic_to_grid_ret a e2 lat_rad lon_rad v) as [[-> ->] | [-> ->]]; simpl.
  - repeat split; congruence.
  - repeat split; congruence.
Qed.

(** C9.  For a zone that is a C [int]: [grid_to_geographic] returns 0 exactly
    when the zone is neither UPS marker and lies outside 1..60 (the two
    AutoSelect enumerators among them), or the zone is in 1..60 and the
    hemisphere is neither North nor South.  For UPS_NORTH and UPS_SOUTH it
    returns 1 for every hemisphere argument and runs the polar inverse with
    the hemisphere of the pole. *)
Theorem grid_to_geographic_fails_iff_zone_or_hemisphere_invalid
    (a e2 : T) (zone : GridZone) (hemi : Hemisphere) (N E : T) (out : T * T) :
  (- 2 ^ 31 <= zone < 2 ^ 31)%Z ->
  let r := grid_to_geographic a e2 zone hemi N E out in
  (fst r = 0%Z <->
     (zone <> UPS_NORTH /\ zone <> UPS_SOUTH /\ (zone < 1 \/ 60 < zone)%Z)
     \/ ((1 <= zone <= 60)%Z /\ hemi <> HEMI_NORTH /\ hemi <> HEMI_SOUTH)) /\
  (fst r = 0%Z \/ fst r = 1%Z) /\
  (fst r = 0%Z -> snd r = out) /\
  (zone = UTM_ZONE_AUTO \/ zone = GRID_AUTO -> fst r = 0%Z) /\
  (zone = UPS_NORTH ->
     r = (1%Z, if e2 !=? #0
               then ps_to_geographic a e2 UPS_K0 HEMI_NORTH UPS_FN UPS_FE N E out
               else ps_to_geographic_sphere a UPS_K0 HEMI_NORTH UPS_FN UPS_FE N E out)) /\
  (zone = UPS_SOUTH ->
     r = (1%Z, if e2 !=? #0
               then ps_to_geographic a e2 UPS_K0 HEMI_SOUTH UPS_FN UPS_FE N E out
               else ps_to_geographic_sphere a UPS_K0 HEMI_SOUTH UPS_FN UPS_FE N E out)).
Proof.
  intros Hint. cbv zeta.
  pose proof (unsigned_of_GridZone_range Hint) as Hrange.
  unfold grid_to_geographic, UPS_NORTH, UPS_SOUTH, UTM_ZONE_AUTO, GRID_AUTO in *.
  rewrite Z.gtb_ltb.
  destruct (Z.eqb_spec zone 61) as [-> | Hn]; simpl;
    [intuition (try discriminate; try congruence; try lia) |].
  destruct (Z.eqb_spec zone 62) as [-> | Hs]; simpl;
    [intuition (try discriminate; try congruence; try lia) |].
  destruct (Z.ltb_spec (unsigned_of_GridZone zone) 1) as [Hlo | Hlo]; simpl;
    [intuition (try discriminate; try congruence; try lia) |].
  destruct (Z.ltb_spec 60 (unsigned_of_GridZone zone)) as [Hhi | Hhi]; simpl;
    [intuition (try discriminate; try congruence; try lia) |].
  assert (Hz : (1 <= zone <= 60)%Z) by (apply Hrange; lia).
  destruct hemi; simpl; intuition (try discriminate; try congruence; try lia).
Qed.

(** C10.  With HEMI_AUTO: [geographic_to_ps] leaves [*N] as it was and
    assigns to [*E] what the southern formula gives; [geographic_to_ps_sphere]
    and [ps_to_geographic_sphere] assign nothing; [ps_to_geographic] leaves
    [*lat_rad] as it was, and [*lon_rad] too unless the point is the origin
    (where it assigns 0).  With HEMI_NORTH or HEMI_SOUTH the four functions
    assign both outputs: the result does not depend on what they held. *)
Theorem ps_outputs_assigned_only_for_concrete_hemisphere
    (a e2 k0 FN FE lat_rad lon_rad N E : T) (out : T * T) :
  (* geographic_to_ps *)
  fst (geographic_to_ps a e2 k0 HEMI_AUTO FN FE lat_rad lon_rad out) = fst out /\
  snd (geographic_to_ps a e2 k0 HEMI_AUTO FN FE lat_rad lon_rad out)
    = snd (geographic_to_ps a e2 k0 HEMI_SOUTH FN FE lat_rad lon_rad out) /\
  (* geographic_to_ps_sphere *)
  geographic_to_ps_sphere a k0 HEMI_AUTO FN FE lat_rad lon_rad out = out /\
  (* ps_to_geographic *)
  fst (ps_to_geographic a e2 k0 HEMI_AUTO FN FE N E out) = fst out /\
  snd (ps_to_geographic a e2 k0 HEMI_AUTO FN FE N E out)
    = (if (E - FE ==? #0) && (N - FN ==? #0) then #0 else snd out) /\
  (* ps_to_geographic_sphere *)
  ps_to_geographic_sphere a k0 HEMI_AUTO FN FE N E out = out /\
  (* a concrete hemisphere *)
  (forall (hemi : Hemisphere) (out' : T * T), hemi <> HEMI_AUTO ->
     geographic_to_ps a e2 k0 hemi FN FE lat_rad lon_rad out
       = geographic_to_ps a e2 k0 hemi FN FE lat_rad lon_rad out' /\
     geographic_to_ps_sphere a k0 hemi FN FE lat_rad lon_rad out
       = geographic_to_ps_sphere a k0 hemi FN FE lat_rad lon_rad out' /\
     ps_to_geographic a e2 k0 hemi FN FE N E out
       = ps_to_geographic a e2 k0 hemi FN FE N E out' /\
     ps_to_geographic_sphere a k0 hemi FN FE N E out
       = ps_to_geographic_sphere a k0 hemi FN FE N E out').
Proof.
  repeat split.
  - unfold ps_to_geographic; simpl.
    destruct ((E - FE ==? #0) && (N - FN ==? #0)); reflexivity.
  - unfold ps_to_geographic; simpl.
    destruct ((E - FE ==? #0) && (N - FN ==? #0)); reflexivity.
  - destruct hemi; [congruence | reflexivity | reflexivity].
  - destruct hemi; [congruence | reflexivity | reflexivity].
  - unfold ps_to_geographic.
    destruct hemi; [congruence | |]; simpl;
      destruct ((E - FE ==? #0) && (N - FN ==? #0)); reflexivity.
  - destruct hemi; [congruence | reflexivity | reflexivity].
Qed.


(** ** The loop of the legacy inverse *)

Lemma dmatm_phi_loop_exit (fuel : nat) (a n k0 y phi : T) :
  dmatm_converged a n k0 y phi = true ->
  dmatm_phi_loop (S fuel) a n k0 y phi = Some (phi, sin phi).
Proof.
  unfold dmatm_converged. cbn [dmatm_phi_loop].
  unfold dmatm_T1. cbn [snd]. intros ->. reflexivity.
Qed.

Lemma dmatm_phi_loop_continue (fuel : nat) (a n k0 y phi : T) :
  dmatm_converged a n k0 y phi = false ->
  dmatm_phi_loop (S fuel) a n k0 y phi
    = dmatm_phi_loop fuel a n k0 y (phi * (y / snd (dmatm_T1 a n k0 phi))).
Proof.
  unfold dmatm_converged. cbn [dmatm_phi_loop].
  unfold dmatm_T1. cbn [snd]. intros ->. reflexivity.
Qed.

Lemma dmatm_phi_loop_sound (fuel : nat) (a n k0 y phi : T) (r : T * T) :
  dmatm_phi_loop fuel a n k0 y phi = Some r ->
  dmatm_converged a n k0 y (fst r) = true /\ snd r = sin (fst r).
Proof.
  revert phi. induction fuel as [| fuel IH]; intros phi; [discriminate |].
  destruct (dmatm_converged a n k0 y phi) eqn:Hc.
  - rewrite dmatm_phi_loop_exit by exact Hc.
    intros [= <-]. split; [exact Hc | reflexivity].
  - rewrite dmatm_phi_loop_continue by exact Hc. apply IH.
Qed.

Lemma dmatm_phi_loop_more_fuel (fuel fuel' : nat) (a n k0 y phi : T) (r : T * T) :
  (fuel <= fuel')%nat ->
  dmatm_phi_loop fuel a n k0 y phi = Some r ->
  dmatm_phi_loop fuel' a n k0 y phi = Some r.
Proof.
  revert fuel' phi. induction fuel as [| fuel IH]; intros fuel' phi Hle; [discriminate |].
  destruct fuel' as [| fuel']; [lia |].
  destruct (dmatm_converged a n k0 y phi) eqn:Hc.
  - rewrite !dmatm_phi_loop_exit by exact Hc. trivial.
  - rewrite !dmatm_phi_loop_continue by exact Hc. apply IH. lia.
Qed.

(** C3 (amended).  The loop of [dmatm_tm_to_geographic] has no iteration cap
    and no error result.  An evaluation of its body either meets
    [fabs(T1-y) < 0.001] and leaves the loop with the current [phi], or
    replaces [phi] by [phi*(y/T1)] and goes round again, however many
    evaluations came before.  So the function returns only with a [phi] that
    meets the tolerance, the result does not depend on the fuel once there
    is enough of it, and the function returns nothing as long as the
    tolerance is not met. *)
Theorem dmatm_loop_exits_on_tolerance_only (a e2 k0 lon_mer FN FE N E : T) :
  let f := #1 - sqrt (#1 - e2) in
  let n := f / (#2 - f) in
  let y := N - FN in
  (forall (fuel : nat) (phi : T),
     dmatm_converged a n k0 y phi = true ->
     dmatm_phi_loop (S fuel) a n k0 y phi = Some (phi, sin phi)) /\
  (forall (fuel : nat) (phi : T),
     dmatm_converged a n k0 y phi = false ->
     dmatm_phi_loop (S fuel) a n k0 y phi
       = dmatm_phi_loop fuel a n k0 y (phi * (y / snd (dmatm_T1 a n k0 phi)))) /\
  (forall (fuel : nat) (r : T * T),
     dmatm_tm_to_geographic fuel a e2 k0 lon_mer FN FE N E = Some r ->
     exists phi : T,
       dmatm_converged a n k0 y phi = true /\
       r = dmatm_tm_to_geographic_tail a e2 k0 lon_mer (E - FE) phi (sin phi) /\
       forall fuel' : nat, (fuel <= fuel')%nat ->
         dmatm_tm_to_geographic fuel' a e2 k0 lon_mer FN FE N E = Some r) /\
  (forall fuel : nat,
     dmatm_tm_to_geographic fuel a e2 k0 lon_mer FN FE N E = None <->
     dmatm_phi_loop fuel a n k0 y (y / (a * (#1 - f)) / k0) = None).
Proof.
  intros f n y. repeat split.
  - intros fuel phi. apply dmatm_phi_loop_exit.
  - intros fuel phi. apply dmatm_phi_loop_continue.
  - intros fuel r. unfold dmatm_tm_to_geographic. fold f n y.
    destruct (dmatm_phi_loop fuel a n k0 y (y / (a * (#1 - f)) / k0))
      as [[phi s] |] eqn:Hloop; [| discriminate].
    intros [= <-].
    destruct (dmatm_phi_loop_sound _ _ _ _ _ _ Hloop) as [Hc Hs]. cbn [fst snd] in Hc, Hs.
    exists phi. subst s. repeat split; [exact Hc |].
    intros fuel' Hle.
    rewrite (dmatm_phi_loop_more_fuel _ _ _ _ _ Hle Hloop). reflexivity.
  - unfold dmatm_tm_to_geographic. fold f n y.
    destruct (dmatm_phi_loop fuel a n k0 y (y / (a * (#1 - f)) / k0)) as [[phi s] |];
      [discriminate | reflexivity].
  - unfold dmatm_tm_to_geographic. fold f n y.
    intros ->. reflexivity.
Qed.

End Generic.

(** * Properties of the binary64 interpretation *)

Module Binary64Facts.

Import Binary64.

(** ** The order of binary64 *)

Ltac cmp_cases :=
  repeat match goal with
  | |- context [Z.compare ?a ?b] => destruct (Z.compare_spec a b)
  | |- context [Pos.compare_cont Eq ?a ?b] =>
      change (Pos.compare_cont Eq a b) with (Pos.compare a b);
      destruct (Pos.compare_spec a b)
  end.

Ltac sf_order :=
  unfold SFleb, SFltb, SFcompare;
  repeat match goal with
  | x : spec_float |- _ => destruct x as [[|] | [|] | | [|] ? ?]
  end;
  simpl; try discriminate; try reflexivity;
  cmp_cases; simpl; subst; try discriminate; try reflexivity; try lia.

Lemma SFleb_ltb_trans (a x b : spec_float) :
  SFleb a x = true -> SFltb x b = true -> SFltb a b = true.
Proof. sf_order. Qed.

Lemma SFltb_not_leb (x b : spec_float) : SFltb x b = true -> SFleb b x = false.
Proof. sf_order. Qed.

Lemma SFltb_leb (x b : spec_float) : SFltb x b = true -> SFleb x b = true.
Proof. sf_order. Qed.

Lemma leb_ltb_trans (a x b : float) :
  PrimFloat.leb a x = true -> PrimFloat.ltb x b = true -> PrimFloat.ltb a b = true.
Proof. rewrite leb_spec, !ltb_spec. apply SFleb_ltb_trans. Qed.

Lemma ltb_not_leb (x b : float) : PrimFloat.ltb x b = true -> PrimFloat.leb b x = false.
Proof. rewrite leb_spec, ltb_spec. apply SFltb_not_leb. Qed.

Lemma ltb_leb (x b : float) : PrimFloat.ltb x b = true -> PrimFloat.leb x b = true.
Proof. rewrite leb_spec, ltb_spec. apply SFltb_leb. Qed.

(** With two constants such that [hi < lo] is false: a value at least [hi]
    is not below [lo], and a value below [lo] is neither above nor at least
    [hi]. *)
Arguments leb_ltb_trans : clear implicits.
Arguments ltb_not_leb : clear implicits.
Arguments ltb_leb : clear implicits.

(** The comparisons of the class, at binary64, are the primitive ones. *)
Ltac prim_cmp :=
  change (@ltb float (num _)) with PrimFloat.ltb in *;
  change (@leb float (num _)) with PrimFloat.leb in *;
  change (@eqb float (num _)) with PrimFloat.eqb in *.

(** Two bounds on one value that contradict the order of the constants. *)
Ltac order_contradiction :=
  prim_cmp;
  repeat match goal with
  | H : PrimFloat.ltb ?a ?b = true |- _ =>
      lazymatch goal with
      | _ : PrimFloat.leb a b = true |- _ => fail
      | _ => pose proof (ltb_leb a b H)
      end
  end;
  match goal with
  | Hl : PrimFloat.leb ?a ?x = true, Hr : PrimFloat.ltb ?x ?b = true |- _ =>
      let Hbad := fresh in
      pose proof (leb_ltb_trans a x b Hl Hr) as Hbad;
      vm_compute in Hbad; discriminate Hbad
  end.

(** [c = false] for a comparison [c] that the bounds at hand exclude. *)
Ltac order_false :=
  prim_cmp;
  match goal with
  | |- ?c = false => destruct c eqn:?; [exfalso; order_contradiction | reflexivity]
  end.

Section AnyLibm.

Context (m : Libm).
Local Open Scope num_scope.

Local Abbreviation vars z hemi N0 E0 :=
  {| gv_zone := z; gv_hemi := hemi; gv_N := N0; gv_E := E0 |}.


(** C1.  utm.cpp 2.0 at 75 N, 10 E with GRID_AUTO: the zone returned is 32,
    the zone of the 6-degree formula, where the 12-degree partition of the
    band asks for 33 (9 E to 21 E).  The block that assigns 31/33/35/37 is
    attached to the [else] of the test [(izone<1)||(izone>60)], which the
    automatic request never reaches. *)
Theorem grid_auto_ignores_svalbard_partition
    (a e2 : float) (hemi : Hemisphere) (N0 E0 : float) :
  gv_zone (snd (geographic_to_grid a e2 (RAD 75) (RAD 10) (vars GRID_AUTO hemi N0 E0)))
    = UTM_ZONE_32.
Proof.
  rewrite geographic_to_grid_utm; try (vm_compute; reflexivity).
Qed.

(** The same request in utm.cpp 1.1, where the block is nested in the
    automatic branch: 33. *)
Lemma grid_auto_1_1_svalbard_75N_10E
    (a e2 : float) (hemi : Hemisphere) (N0 E0 : float) :
  gv_zone (snd (geographic_to_grid_1_1 a e2 (RAD 75) (RAD 10) (vars GRID_AUTO hemi N0 E0)))
    = UTM_ZONE_33.
Proof.
  unfold geographic_to_grid_1_1.
  replace ((RAD 75 >? RAD 90) || (RAD 75 <? RAD (-90))) with false
    by (vm_compute; reflexivity).
  cbn [gv_zone gv_hemi gv_N gv_E].
  replace (resolve_grid_auto (RAD 75) GRID_AUTO) with UTM_ZONE_AUTO
    by (vm_compute; reflexivity).
  replace ((UTM_ZONE_AUTO =? UPS_NORTH)%Z || (UTM_ZONE_AUTO =? UPS_SOUTH)%Z) with false
    by reflexivity.
  replace (utm_izone_1_1 (RAD 75) (normalize_lon (RAD 10)) UTM_ZONE_AUTO) with 33%Z
    by (vm_compute; reflexivity).
  destruct (e2 !=? #0).
  - destruct (dmatm_geographic_to_tm _ _ _ _ _ _ _ _); reflexivity.
  - destruct (geographic_to_tm_sphere _ _ _ _ _ _ _); reflexivity.
Qed.

(** In utm.cpp 1.1 the partition holds on the whole band: for every latitude
    with RAD(72) <= lat < RAD(84) and every longitude with
    RAD(0) <= lon < RAD(42), GRID_AUTO returns 31, 33, 35 or 37 by the
    boundaries RAD(9), RAD(21) and RAD(33). *)
Theorem grid_auto_1_1_svalbard_partition
    (a e2 lat_rad lon_rad : float) (hemi : Hemisphere) (N0 E0 : float) :
  (lat_rad >=? RAD 72) = true -> (lat_rad <? RAD 84) = true ->
  (lon_rad >=? RAD 0) = true -> (lon_rad <? RAD 42) = true ->
  gv_zone (snd (geographic_to_grid_1_1 a e2 lat_rad lon_rad (vars GRID_AUTO hemi N0 E0)))
    = if lon_rad <? RAD 9 then UTM_ZONE_31
      else if lon_rad <? RAD 21 then UTM_ZONE_33
      else if lon_rad <? RAD 33 then UTM_ZONE_35
      else UTM_ZONE_37.
Proof.
  intros Hlat1 Hlat2 Hlon1 Hlon2.
  assert (H90 : (lat_rad >? RAD 90) = false) by order_false.
  assert (Hm90 : (lat_rad <? RAD (-90)) = false) by order_false.
  assert (H180 : (lon_rad >? RAD 180) = false) by order_false.
  assert (Hm180 : (lon_rad <? RAD (-180)) = false) by order_false.
  assert (H84 : (lat_rad >=? RAD 84) = false) by order_false.
  assert (Hm80 : (lat_rad <? RAD (-80)) = false) by order_false.
  assert (H64 : (lat_rad <? RAD 64) = false) by order_false.
  unfold geographic_to_grid_1_1. rewrite H90, Hm90. cbn [orb gv_zone gv_hemi gv_N gv_E].
  unfold normalize_lon. rewrite H180, Hm180. cbn [orb].
  unfold resolve_grid_auto. rewrite Z.eqb_refl, H84, Hm80.
  change ((UTM_ZONE_AUTO =? UPS_NORTH)%Z || (UTM_ZONE_AUTO =? UPS_SOUTH)%Z) with false.
  cbv iota.
  assert (Hiz : utm_izone_1_1 lat_rad lon_rad UTM_ZONE_AUTO
                = if lon_rad <? RAD 9 then 31%Z
                  else if lon_rad <? RAD 21 then 33%Z
                  else if lon_rad <? RAD 33 then 35%Z
                  else 37%Z).
  { unfold utm_izone_1_1.
    change (unsigned_of_GridZone UTM_ZONE_AUTO) with 0%Z.
    change ((0 <? 1)%Z || (0 >? 60)%Z) with true. cbv iota.
    rewrite Hlat1, Hlat2, Hlon1, Hlon2, H64, andb_false_r. cbn [andb].
    reflexivity. }
  rewrite Hiz.
  destruct (e2 !=? #0);
    [destruct (dmatm_geographic_to_tm _ _ _ _ _ _ _ _)
    | destruct (geographic_to_tm_sphere _ _ _ _ _ _ _)];
    cbn [snd gv_zone];
    destruct (lon_rad <? RAD 9); try reflexivity;
    destruct (lon_rad <? RAD 21); try reflexivity;
    destruct (lon_rad <? RAD 33); reflexivity.
Qed.

(** The block over southern Norway: with GRID_AUTO or UTM_ZONE_AUTO, every
    point with RAD(56) <= lat < RAD(64) and RAD(3) <= lon < RAD(12) is given
    zone 32. *)
Theorem grid_auto_norway_zone_32
    (a e2 lat_rad lon_rad : float) (z : GridZone) (hemi : Hemisphere) (N0 E0 : float) :
  z = GRID_AUTO \/ z = UTM_ZONE_AUTO ->
  (lat_rad >=? RAD 56) = true -> (lat_rad <? RAD 64) = true ->
  (lon_rad >=? RAD 3) = true -> (lon_rad <? RAD 12) = true ->
  gv_zone (snd (geographic_to_grid a e2 lat_rad lon_rad (vars z hemi N0 E0)))
    = UTM_ZONE_32.
Proof.
  intros Hz Hlat1 Hlat2 Hlon1 Hlon2.
  assert (H90 : (lat_rad >? RAD 90) = false) by order_false.
  assert (Hm90 : (lat_rad <? RAD (-90)) = false) by order_false.
  assert (H180 : (lon_rad >? RAD 180) = false) by order_false.
  assert (Hm180 : (lon_rad <? RAD (-180)) = false) by order_false.
  assert (H84 : (lat_rad >=? RAD 84) = false) by order_false.
  assert (Hm80 : (lat_rad <? RAD (-80)) = false) by order_false.
  assert (Hres : resolve_grid_auto lat_rad z = UTM_ZONE_AUTO).
  { unfold resolve_grid_auto. destruct Hz as [-> | ->]; [| reflexivity].
    rewrite Z.eqb_refl, H84, Hm80. reflexivity. }
  rewrite geographic_to_grid_utm; cbn [gv_zone gv_hemi gv_N gv_E snd];
    rewrite ?Hres, ?H90, ?Hm90; try reflexivity.
  unfold normalize_lon. rewrite H180, Hm180. cbn [orb].
  unfold utm_izone.
  change (unsigned_of_GridZone UTM_ZONE_AUTO) with 0%Z.
  change ((0 <? 1)%Z || (0 >? 60)%Z) with true. cbv iota.
  rewrite Hlat1, Hlat2, Hlon1, Hlon2. reflexivity.
Qed.

(** C4.  At longitude RAD(180), which the normalisation leaves alone, the
    automatic zone is [(unsigned)60.0 + 1 = 61]: the value returned in
    [*zone] is the enumerator UPS_NORTH, and the point went through the
    transverse Mercator projection with the central meridian of a 61st
    zone.  The same with UTM_ZONE_AUTO. *)
Theorem grid_auto_zone_61_at_180E
    (a e2 : float) (hemi : Hemisphere) (N0 E0 : float) :
  let hemi' :=
    if negb (Hemisphere_eqb hemi HEMI_NORTH) && negb (Hemisphere_eqb hemi HEMI_SOUTH)
    then HEMI_NORTH else hemi in
  let fn := if Hemisphere_eqb hemi' HEMI_NORTH then UTM_FN_NH else UTM_FN_SH in
  let NE :=
    if e2 !=? #0
    then geographic_to_tm a e2 UTM_K0 (utm_lon_mer 61) fn UTM_FE #0 (RAD 180)
    else geographic_to_tm_sphere a UTM_K0 (utm_lon_mer 61) fn UTM_FE #0 (RAD 180) in
  geographic_to_grid a e2 #0 (RAD 180) (vars GRID_AUTO hemi N0 E0)
    = (1%Z, vars UPS_NORTH hemi' (fst NE) (snd NE)) /\
  geographic_to_grid a e2 #0 (RAD 180) (vars UTM_ZONE_AUTO hemi N0 E0)
    = (1%Z, vars UPS_NORTH hemi' (fst NE) (snd NE)) /\
  (RAD 180 <=? RAD 180) = true /\ (RAD (-180) <? RAD 180) = true.
Proof.
  cbv zeta. repeat split; try (vm_compute; reflexivity);
    rewrite geographic_to_grid_utm; vm_compute; reflexivity.
Qed.

End AnyLibm.

(** ** NaN through the loop of the legacy inverse *)

Lemma sub_nan_r (x : float) : PrimFloat.sub x nan = nan.
Proof.
  apply Prim2SF_inj. rewrite sub_spec.
  change (Prim2SF nan) with S754_nan.
  destruct (Prim2SF x) as [[|] | [|] | | [|] ? ?]; reflexivity.
Qed.

Lemma div_nan_l (x : float) : PrimFloat.div nan x = nan.
Proof.
  apply Prim2SF_inj. rewrite div_spec.
  change (Prim2SF nan) with S754_nan.
  destruct (Prim2SF x) as [[|] | [|] | | [|] ? ?]; reflexivity.
Qed.

(** With [y = NaN] the test [fabs(T1-y) < 0.001] fails whatever [T1] is, and
    the update keeps [phi = NaN]: the loop never leaves, with any libm. *)
Lemma dmatm_phi_loop_nan (m : Libm) (fuel : nat) (a n k0 : float) :
  dmatm_phi_loop (num := num m) fuel a n k0 nan nan = None.
Proof.
  induction fuel as [| fuel IH]; [reflexivity |].
  cbn [dmatm_phi_loop].
  destruct (dmatm_T1 a n k0 nan) as [s T1].
  change (@sub float (num m) T1 nan) with (PrimFloat.sub T1 nan).
  rewrite sub_nan_r.
  change (@fabs float (num m) nan <? TM_TO_GEOGRAPHIC_TOLERANCE_M)%num with false.
  cbv iota.
  change (@mul float (num m) nan (@div float (num m) nan T1))
    with (PrimFloat.mul nan (PrimFloat.div nan T1)).
  rewrite div_nan_l.
  change (PrimFloat.mul nan nan) with nan.
  exact IH.
Qed.

Lemma sub_nan_l (x : float) : PrimFloat.sub nan x = nan.
Proof.
  apply Prim2SF_inj. rewrite sub_spec.
  change (Prim2SF nan) with S754_nan.
  destruct (Prim2SF x) as [[|] | [|] | | [|] ? ?]; reflexivity.
Qed.

Lemma add_nan_l (x : float) : PrimFloat.add nan x = nan.
Proof.
  apply Prim2SF_inj. rewrite add_spec.
  change (Prim2SF nan) with S754_nan.
  destruct (Prim2SF x) as [[|] | [|] | | [|] ? ?]; reflexivity.
Qed.

(** A NaN northing: [y = N - FN] and the first [phi = y/b/k0] are NaN. *)
Lemma dmatm_tm_to_geographic_nan_northing
    (m : Libm) (fuel : nat) (a e2 k0 lon_mer FN FE E : float) :
  dmatm_tm_to_geographic (num := num m) fuel a e2 k0 lon_mer FN FE nan E = None.
Proof.
  unfold dmatm_tm_to_geographic.
  change (@sub float (num m) nan FN) with (PrimFloat.sub nan FN).
  rewrite sub_nan_l.
  match goal with
  | |- context [dmatm_phi_loop fuel a ?n k0 nan (@div _ _ (@div _ _ nan ?b) k0)] =>
      change (@div float (num m) (@div float (num m) nan b) k0)
        with (PrimFloat.div (PrimFloat.div nan b) k0)
  end.
  rewrite !div_nan_l, dmatm_phi_loop_nan. reflexivity.
Qed.

(** ** Runs with the reference libm *)

Section Runs.

Local Open Scope float_scope.
(* decimal literals are rounded to binary64 as the C compiler rounds them *)
#[local] Set Warnings "-inexact-float".

Local Abbreviation vars z h := {| gv_zone := z; gv_hemi := h; gv_N := 0; gv_E := 0 |}.

(** Inputs of the test program.  Table 2-11, ID 2: 30 N, 102 E projected
    into zone 48 and read back; ID 1: 73 N, 45 E, on the central meridian of
    zone 38.  Table 3-7, ID 1: a point of the northern polar cap, whose grid
    coordinates the test feeds back in ID 4. *)
Example table_2_11_round_trip :
  let g z lat lon :=
    snd (geographic_to_grid (num := num libm_ref) a_International e2_International
           (RAD (num := num libm_ref) lat) (RAD (num := num libm_ref) lon)
           (vars z HEMI_NORTH)) in
  let r := g 48%Z 30%Z 102%Z in
  let back := snd (grid_to_geographic (num := num libm_ref) a_International
                     e2_International (gv_zone r) (gv_hemi r) (gv_N r) (gv_E r) (0, 0)) in
  gv_zone r = 48%Z /\
  near (gv_E r) 210577.93 0.01 = true /\
  near (fst back) (RAD (num := num libm_ref) 30) 1e-9 = true /\
  near (snd back) (RAD (num := num libm_ref) 102) 1e-9 = true /\
  gv_zone (g 38%Z 73%Z 45%Z) = 38%Z /\
  near (gv_E (g 38%Z 73%Z 45%Z)) 500000 0.01 = true.
Proof. vm_compute. repeat split. Qed.

Example table_3_7_ups_north :
  let lat := ((84 + 17 / 60 + 14.042 / 3600) / 180 * float_M_PI)%float in
  let lon := (- ((132 + 14 / 60 + 52.761 / 3600) / 180 * float_M_PI))%float in
  let r := snd (geographic_to_grid (num := num libm_ref) a_WGS84 e2_WGS84 lat lon
                  (vars UPS_NORTH HEMI_AUTO)) in
  let back := snd (grid_to_geographic (num := num libm_ref) a_WGS84 e2_WGS84
                     UPS_NORTH HEMI_AUTO 2426773.60 1530125.78 (0, 0)) in
  gv_hemi r = HEMI_NORTH /\
  near (gv_N r) 2426773.60 0.01 = true /\ near (gv_E r) 1530125.78 0.01 = true /\
  near (fst back) lat 1e-8 = true /\ near (snd back) lon 1e-8 = true.
Proof. vm_compute. repeat split. Qed.

(** The legacy inverse on the coordinates of table 2-11, ID 4: the loop
    leaves at its fourth evaluation, and the result agrees with the current
    inverse to 1e-9 radians. *)
Example table_2_11_inverse_legacy :
  let legacy fuel :=
    dmatm_tm_to_geographic (num := num libm_ref) fuel a_International e2_International
      (UTM_K0 (num := num libm_ref)) (utm_lon_mer (num := num libm_ref) 48)
      (UTM_FN_NH (num := num libm_ref)) (UTM_FE (num := num libm_ref))
      3322824.35 210577.93 in
  let current :=
    snd (grid_to_geographic (num := num libm_ref) a_International e2_International
           48%Z HEMI_NORTH 3322824.35 210577.93 (0, 0)) in
  legacy 3%nat = None /\
  match legacy 4%nat with
  | Some (lat, lon) =>
      near lat (fst current) 1e-9 && near lon (snd current) 1e-9 = true
  | None => False
  end.
Proof. vm_compute. repeat split. Qed.



(** C9, for zone 32 with the hemisphere left at HEMI_AUTO. *)
Lemma grid_to_geographic_fails_iff_zone_or_hemisphere_invalid_witness :
  (- 2 ^ 31 <= 32 < 2 ^ 31)%Z /\
  fst (grid_to_geographic (num := num libm_ref) a_WGS84 e2_WGS84
         UTM_ZONE_32 HEMI_AUTO 6651988 555779 (0, 0)) = 0%Z.
Proof.
  assert (Hint : (- 2 ^ 31 <= 32 < 2 ^ 31)%Z) by (split; [discriminate | reflexivity]).
  split; [exact Hint |].
  pose proof (grid_to_geographic_fails_iff_zone_or_hemisphere_invalid
                (num := num libm_ref) a_WGS84 e2_WGS84 HEMI_AUTO 6651988 555779 (0, 0)
                Hint) as H.
  cbv zeta in H. destruct H as [Hiff _].
  apply Hiff. right. unfold UTM_ZONE_32.
  repeat split; try discriminate.
Defined.

(** The Norway block at 60 N, 7 E. *)
Lemma grid_auto_norway_zone_32_witness :
  let lat := RAD (num := num libm_ref) 60 in
  let lon := RAD (num := num libm_ref) 7 in
  (RAD (num := num libm_ref) 56 <=? lat) = true /\
  (lat <? RAD (num := num libm_ref) 64) = true /\
  (RAD (num := num libm_ref) 3 <=? lon) = true /\
  (lon <? RAD (num := num libm_ref) 12) = true /\
  gv_zone (snd (geographic_to_grid (num := num libm_ref) a_WGS84 e2_WGS84 lat lon
                  (vars GRID_AUTO HEMI_AUTO))) = UTM_ZONE_32.
Proof.
  cbv zeta.
  pose proof (@grid_auto_norway_zone_32 libm_ref a_WGS84 e2_WGS84
                (RAD (num := num libm_ref) 60) (RAD (num := num libm_ref) 7)
                GRID_AUTO HEMI_AUTO 0 0 (or_introl eq_refl)) as H.
  do 4 (split; [vm_compute; reflexivity |]).
  apply H; vm_compute; reflexivity.
Defined.

(** Version 1.1 at 78 N, 15 E (Svalbard): zone 33. *)
Lemma grid_auto_1_1_svalbard_partition_witness :
  let lat := RAD (num := num libm_ref) 78 in
  let lon := RAD (num := num libm_ref) 15 in
  (RAD (num := num libm_ref) 72 <=? lat) = true /\
  (lat <? RAD (num := num libm_ref) 84) = true /\
  (RAD (num := num libm_ref) 0 <=? lon) = true /\
  (lon <? RAD (num := num libm_ref) 42) = true /\
  gv_zone (snd (geographic_to_grid_1_1 (num := num libm_ref) a_WGS84 e2_WGS84 lat lon
                  (vars GRID_AUTO HEMI_AUTO))) = UTM_ZONE_33.
Proof.
  cbv zeta.
  pose proof (@grid_auto_1_1_svalbard_partition libm_ref a_WGS84 e2_WGS84
                (RAD (num := num libm_ref) 78) (RAD (num := num libm_ref) 15)
                HEMI_AUTO 0 0) as H.
  do 4 (split; [vm_compute; reflexivity |]).
  rewrite H by (vm_compute; reflexivity).
  vm_compute. reflexivity.
Defined.


(** The slip next to it, left out of the amended claim: an explicit zone 32
    at 75 N, 10 E is replaced by 33. *)
Lemma explicit_zone_replaced_in_svalbard_band :
  gv_zone (snd (geographic_to_grid (num := num libm_ref) a_WGS84 e2_WGS84
                  (RAD (num := num libm_ref) 75) (RAD (num := num libm_ref) 10)
                  (vars UTM_ZONE_32 HEMI_AUTO))) = UTM_ZONE_33.
Proof. vm_compute. reflexivity. Qed.

(** C3: with a NaN northing the legacy inverse never returns, whatever the
    libm: it is still in its loop after 21 evaluations of the body, and after
    any number of them. *)
Lemma dmatm_loop_never_leaves_on_nan_northing :
  dmatm_tm_to_geographic (num := num libm_ref) 21 a_International e2_International
    (UTM_K0 (num := num libm_ref)) (utm_lon_mer (num := num libm_ref) 48)
    (UTM_FN_NH (num := num libm_ref)) (UTM_FE (num := num libm_ref))
    nan 210577.93 = None /\
  (forall (m : Libm) (fuel : nat),
     dmatm_tm_to_geographic (num := num m) fuel a_International e2_International
       (UTM_K0 (num := num m)) (utm_lon_mer (num := num m) 48)
       (UTM_FN_NH (num := num m)) (UTM_FE (num := num m))
       nan 210577.93 = None).
Proof.
  split; [| intros m fuel]; apply dmatm_tm_to_geographic_nan_northing.
Qed.

End Runs.

End Binary64Facts.

(** * Properties of the exact interpretation *)

Module ExactFacts.

Import Exact.
Local Open Scope R_scope.









(** [exp (atanh u)] for [-1 < u < 1], through the square roots of [1 + u] and [1 - u]. *)
Lemma exp_Ratanh (u : R) :
  -1 < u < 1 ->
  exp (Ratanh u) = R_sqrt.sqrt (1 + u) / R_sqrt.sqrt (1 - u).
Proof.
  intros Hu.
  assert (Hp : 0 < R_sqrt.sqrt (1 + u)) by (apply sqrt_lt_R0; lra).
  assert (Hm : 0 < R_sqrt.sqrt (1 - u)) by (apply sqrt_lt_R0; lra).
  assert (Hq : 0 < R_sqrt.sqrt (1 + u) / R_sqrt.sqrt (1 - u))
    by (apply Rdiv_lt_0_compat; assumption).
  rewrite <- (exp_ln _ Hq). f_equal.
  unfold Ratanh.
  replace ((1 + u) / (1 - u))
    with ((R_sqrt.sqrt (1 + u) / R_sqrt.sqrt (1 - u))
          * (R_sqrt.sqrt (1 + u) / R_sqrt.sqrt (1 - u))).
  - rewrite ln_mult by exact Hq. lra.
  - replace (R_sqrt.sqrt (1 + u) / R_sqrt.sqrt (1 - u)
             * (R_sqrt.sqrt (1 + u) / R_sqrt.sqrt (1 - u)))
      with ((R_sqrt.sqrt (1 + u) * R_sqrt.sqrt (1 + u))
            / (R_sqrt.sqrt (1 - u) * R_sqrt.sqrt (1 - u)))
      by (field; lra).
    rewrite !sqrt_sqrt by lra. reflexivity.
Qed.

Lemma sinh_cosh_Ratanh (u : R) :
  -1 < u < 1 ->
  Rtrigo_def.sinh (Ratanh u) = u / R_sqrt.sqrt (1 - u * u) /\
  Rtrigo_def.cosh (Ratanh u) = 1 / R_sqrt.sqrt (1 - u * u).
Proof.
  intros Hu.
  assert (Hp : 0 < R_sqrt.sqrt (1 + u)) by (apply sqrt_lt_R0; lra).
  assert (Hm : 0 < R_sqrt.sqrt (1 - u)) by (apply sqrt_lt_R0; lra).
  pose proof (sqrt_sqrt (1 + u) ltac:(lra)) as Hpp.
  pose proof (sqrt_sqrt (1 - u) ltac:(lra)) as Hmm.
  replace (1 - u * u) with ((1 + u) * (1 - u)) by ring.
  rewrite sqrt_mult by lra.
  unfold Rtrigo_def.sinh, Rtrigo_def.cosh.
  rewrite exp_Ropp, (exp_Ratanh Hu).
  set (p := R_sqrt.sqrt (1 + u)) in *. set (m := R_sqrt.sqrt (1 - u)) in *.
  split; field_simplify_eq; try lra; nra.
Qed.

(** The two identities behind the inverse of the spherical transverse
    Mercator: with [xi = atan (tan phi / cos dl)] and
    [eta = atanh (cos phi * sin dl)],
    [sin xi / cosh eta = sin phi] and [sinh eta / cos xi = tan dl]. *)
Lemma sphere_tm_identities (phi dl : R) :
  - (PI / 2) < phi < PI / 2 ->
  - (PI / 2) < dl < PI / 2 ->
  let xi := Ratan.atan (Rtrigo1.tan phi / Rtrigo_def.cos dl) in
  let eta := Ratanh (Rtrigo_def.cos phi * Rtrigo_def.sin dl) in
  Rtrigo_def.sin xi / Rtrigo_def.cosh eta = Rtrigo_def.sin phi /\
  Rtrigo_def.sinh eta / Rtrigo_def.cos xi = Rtrigo1.tan dl.
Proof.
  intros Hphi Hdl xi eta.
  pose proof (cos_gt_0 phi (proj1 Hphi) (proj2 Hphi)) as Hc.
  pose proof (cos_gt_0 dl (proj1 Hdl) (proj2 Hdl)) as Hcd.
  pose proof (sin2_cos2 phi) as Hsc. pose proof (sin2_cos2 dl) as Hscd.
  unfold Rsqr in Hsc, Hscd.
  subst xi eta. rewrite sin_atan, cos_atan. unfold Rtrigo1.tan, Rsqr.
  set (s := Rtrigo_def.sin phi) in *. set (c := Rtrigo_def.cos phi) in *.
  set (sd := Rtrigo_def.sin dl) in *. set (cd := Rtrigo_def.cos dl) in *.
  assert (Hu : -1 < c * sd < 1) by (split; nra).
  destruct (sinh_cosh_Ratanh Hu) as [-> ->].
  assert (HK : 0 < 1 - c * sd * (c * sd)) by nra.
  set (q := R_sqrt.sqrt (1 - c * sd * (c * sd))).
  assert (Hq : 0 < q) by (apply sqrt_lt_R0; exact HK).
  assert (Hqq : q * q = 1 - c * sd * (c * sd)) by (apply sqrt_sqrt; lra).
  assert (Hw : R_sqrt.sqrt (1 + s / c / cd * (s / c / cd)) = q / (c * cd)).
  { apply sqrt_lem_1.
    - apply Rplus_le_le_0_compat; [lra | apply Rle_0_sqr].
    - apply Rlt_le, Rdiv_lt_0_compat; nra.
    - field_simplify_eq; [nra | split; lra]. }
  rewrite Hw.
  split; field; repeat split; lra.
Qed.

(** In exact arithmetic the spherical inverse undoes the spherical forward
    projection, for every latitude strictly between the poles and every
    longitude less than a quarter turn from the central meridian. *)
Theorem sphere_tm_round_trip (radius k0 lon_mer FN FE lat_rad lon_rad : R) :
  radius <> 0 -> k0 <> 0 ->
  - (PI / 2) < lat_rad < PI / 2 ->
  - (PI / 2) < lon_rad - lon_mer < PI / 2 ->
  let NE := geographic_to_tm_sphere radius k0 lon_mer FN FE lat_rad lon_rad in
  tm_to_geographic_sphere radius k0 lon_mer FN FE (fst NE) (snd NE) = (lat_rad, lon_rad).
Proof.
  intros HR Hk Hlat Hlon NE. subst NE.
  destruct (sphere_tm_identities Hlat Hlon) as [Hsin Htan].
  unfold tm_to_geographic_sphere, geographic_to_tm_sphere. cbn [fst snd].
  cbn [add sub mul div sin cos tan asin atan sinh cosh atanh num].
  set (xi := Ratan.atan (Rtrigo1.tan lat_rad / Rtrigo_def.cos (lon_rad - lon_mer))) in *.
  set (eta := Ratanh (Rtrigo_def.cos lat_rad * Rtrigo_def.sin (lon_rad - lon_mer))) in *.
  replace ((FN + radius * k0 * xi - FN) / (radius * k0)) with xi by (field; split; lra).
  replace ((FE + radius * k0 * eta - FE) / (radius * k0)) with eta by (field; split; lra).
  rewrite Hsin, Htan.
  rewrite asin_sin by lra. rewrite atan_tan by exact Hlon.
  f_equal. ring.
Qed.

Lemma sphere_tm_round_trip_witness :
  6371000 <> 0 /\ 1 <> 0 /\ - (PI / 2) < 0 < PI / 2 /\ - (PI / 2) < 0 - 0 < PI / 2 /\
  tm_to_geographic_sphere 6371000 1 0 0 0
    (fst (geographic_to_tm_sphere 6371000 1 0 0 0 0 0))
    (snd (geographic_to_tm_sphere 6371000 1 0 0 0 0 0)) = (0, 0).
Proof.
  assert (HR : 6371000 <> 0) by lra.
  assert (Hk : 1 <> 0) by lra.
  assert (Hlat : - (PI / 2) < 0 < PI / 2) by (pose proof PI_RGT_0; lra).
  assert (Hlon : - (PI / 2) < 0 - 0 < PI / 2) by (pose proof PI_RGT_0; lra).
  split; [exact HR |]. split; [exact Hk |]. split; [exact Hlat |]. split; [exact Hlon |].
  exact (@sphere_tm_round_trip 6371000 1 0 0 0 0 0 HR Hk Hlat Hlon).
Defined.



(** The degenerate case of the polar inverse: the false origin is the pole,
    with longitude 0. *)
Theorem ps_to_geographic_origin (a e2 k0 FN FE : R) (out : R * R) :
  ps_to_geographic a e2 k0 HEMI_NORTH FN FE FN FE out = (PI / 2, 0) /\
  ps_to_geographic a e2 k0 HEMI_SOUTH FN FE FN FE out = (- PI / 2, 0).
Proof.
  unfold ps_to_geographic.
  cbn [of_Z sub div opp eqb M_PI num].
  unfold Reqb. rewrite !Rminus_diag.
  destruct (Req_dec_T 0 0) as [_ | H]; [| contradiction H; reflexivity].
  split; reflexivity.
Qed.

End ExactFacts.

(** * The point scale on the central meridian, in both interpretations *)

Section CentralMeridianScale.

Import Binary64.
Local Open Scope R_scope.


End CentralMeridianScale.

(** * The grid functions: requests, outputs and how the two compose *)

Section GridGeneric.

Context {T : Type} {num : Num T}.
Local Open Scope num_scope.

Local Abbreviation vars z hemi N0 E0 :=
  {| gv_zone := z; gv_hemi := hemi; gv_N := N0; gv_E := E0 |}.

(** A request for UPS_NORTH or UPS_SOUTH, at a latitude that passes the range
    test: the function returns 1, leaves the zone as requested, sets the
    hemisphere to the one of the pole, and returns the same zone, hemisphere,
    northing and easting whatever hemisphere was requested; the latitude has
    no say in either. *)
Theorem explicit_ups_zone_overrides_hemisphere
    (a e2 lat_rad lon_rad : T) (z : GridZone) (hemi hemi' : Hemisphere) (N0 E0 : T) :
  (lat_rad >? RAD 90) || (lat_rad <? RAD (-90)) = false ->
  z = UPS_NORTH \/ z = UPS_SOUTH ->
  let r := geographic_to_grid a e2 lat_rad lon_rad (vars z hemi N0 E0) in
  fst r = 1%Z /\
  gv_zone (snd r) = z /\
  gv_hemi (snd r) = (if (z =? UPS_NORTH)%Z then HEMI_NORTH else HEMI_SOUTH) /\
  r = geographic_to_grid a e2 lat_rad lon_rad (vars z hemi' N0 E0).
Proof.
  intros Hlat Hz r. subst r.
  assert (Hres : forall h, resolve_grid_auto lat_rad (gv_zone (vars z h N0 E0)) = z).
  { intros h. unfold resolve_grid_auto. cbn [gv_zone].
    destruct Hz as [-> | ->]; reflexivity. }
  assert (Hups : (z =? UPS_NORTH)%Z || (z =? UPS_SOUTH)%Z = true)
    by (destruct Hz as [-> | ->]; reflexivity).
  pose proof (geographic_to_grid_ups a e2 lat_rad lon_rad (vars z hemi N0 E0) Hlat) as H1.
  pose proof (geographic_to_grid_ups a e2 lat_rad lon_rad (vars z hemi' N0 E0) Hlat) as H2.
  cbv zeta in H1, H2. rewrite Hres in H1, H2.
  specialize (H1 Hups). specialize (H2 Hups).
  rewrite H1, H2. cbn [fst snd gv_zone gv_hemi gv_N gv_E].
  repeat split; reflexivity.
Qed.

(** The hemisphere output.  Whenever the function returns 1 the hemisphere is
    HEMI_NORTH or HEMI_SOUTH, never HEMI_AUTO.  With a zone request other
    than GRID_AUTO and the two UPS markers, a requested hemisphere is kept,
    also against the sign of the latitude, and HEMI_AUTO becomes HEMI_NORTH
    when [lat_rad >= 0] and HEMI_SOUTH otherwise. *)
Theorem utm_hemisphere_request
    (a e2 lat_rad lon_rad : T) (v : grid_vars T) :
  let r := geographic_to_grid a e2 lat_rad lon_rad v in
  (fst r = 1%Z -> gv_hemi (snd r) <> HEMI_AUTO) /\
  (fst r = 1%Z ->
   gv_zone v <> GRID_AUTO -> gv_zone v <> UPS_NORTH -> gv_zone v <> UPS_SOUTH ->
   gv_hemi (snd r)
     = match gv_hemi v with
       | HEMI_AUTO => if lat_rad >=? #0 then HEMI_NORTH else HEMI_SOUTH
       | h => h
       end).
Proof.
  cbv zeta.
  destruct (geographic_to_grid_ret a e2 lat_rad lon_rad v) as [[-> _] | [_ Hlat]].
  - split; intros H; discriminate H.
  - destruct ((resolve_grid_auto lat_rad (gv_zone v) =? UPS_NORTH)%Z
              || (resolve_grid_auto lat_rad (gv_zone v) =? UPS_SOUTH)%Z) eqn:Hups.
    + pose proof (geographic_to_grid_ups a e2 lat_rad lon_rad v Hlat) as H.
      cbv zeta in H. rewrite (H Hups). cbn [fst snd gv_hemi].
      split.
      * intros _. destruct (resolve_grid_auto lat_rad (gv_zone v) =? UPS_NORTH)%Z; discriminate.
      * intros _ Hauto Hn Hs. exfalso.
        unfold resolve_grid_auto in Hups.
        destruct (Z.eqb_spec (gv_zone v) GRID_AUTO) as [E | _]; [exact (Hauto E) |].
        apply orb_true_iff in Hups as [E | E]; apply Z.eqb_eq in E; [exact (Hn E) | exact (Hs E)].
    + pose proof (geographic_to_grid_utm a e2 lat_rad lon_rad v Hlat) as H.
      cbv zeta in H. rewrite (H Hups). cbn [fst snd gv_hemi].
      split; intros; destruct (gv_hemi v); cbn; try discriminate; try reflexivity;
        destruct (lat_rad >=? #0); try discriminate; reflexivity.
Qed.

(** [geographic_to_tm_with_convergence_and_scale] repeats the body of
    [geographic_to_tm]: its northing and easting are those of
    [geographic_to_tm], in every arithmetic. *)
Theorem tm_with_convergence_and_scale_same_grid_point
    (a e2 k0 lon_mer FN FE lat_rad lon_rad : T) :
  let p := geographic_to_tm_with_convergence_and_scale a e2 k0 lon_mer FN FE lat_rad lon_rad in
  (tm_N p, tm_E p) = geographic_to_tm a e2 k0 lon_mer FN FE lat_rad lon_rad.
Proof. reflexivity. Qed.

Lemma unsigned_of_GridZone_1_60 (z : GridZone) :
  (1 <= z <= 60)%Z -> unsigned_of_GridZone z = z.
Proof.
  intros Hz. unfold unsigned_of_GridZone. apply wrap32_small.
  change (2 ^ 32)%Z with 4294967296%Z. lia.
Qed.

(** utm.cpp 1.1 keeps an explicit zone everywhere, the band from RAD(72) to
    RAD(84) included: for a zone in 1..60 and a latitude that passes the
    range test it returns 1 with that zone, the hemisphere as requested (or
    by the sign of the latitude), and the projection about the central
    meridian of that zone. *)
Theorem explicit_zone_kept_1_1
    (a e2 lat_rad lon_rad : T) (z : GridZone) (hemi : Hemisphere) (N0 E0 : T) :
  (1 <= z <= 60)%Z ->
  (lat_rad >? RAD 90) || (lat_rad <? RAD (-90)) = false ->
  let r := geographic_to_grid_1_1 a e2 lat_rad lon_rad (vars z hemi N0 E0) in
  let h := match hemi with
           | HEMI_AUTO => if lat_rad >=? #0 then HEMI_NORTH else HEMI_SOUTH
           | h => h
           end in
  let fn := if Hemisphere_eqb h HEMI_NORTH then UTM_FN_NH else UTM_FN_SH in
  fst r = 1%Z /\ gv_zone (snd r) = z /\ gv_hemi (snd r) = h /\
  (gv_N (snd r), gv_E (snd r))
    = if e2 !=? #0
      then dmatm_geographic_to_tm a e2 UTM_K0 (utm_lon_mer z) fn UTM_FE
             lat_rad (normalize_lon lon_rad)
      else geographic_to_tm_sphere a UTM_K0 (utm_lon_mer z) fn UTM_FE
             lat_rad (normalize_lon lon_rad).
Proof.
  intros Hz Hlat r h fn. subst r h fn.
  unfold geographic_to_grid_1_1. rewrite Hlat. cbn [gv_zone gv_hemi gv_N gv_E].
  assert (Hres : resolve_grid_auto lat_rad z = z).
  { unfold resolve_grid_auto, GRID_AUTO.
    destruct (Z.eqb_spec z 63); [lia | reflexivity]. }
  rewrite Hres.
  assert (Hups : (z =? UPS_NORTH)%Z || (z =? UPS_SOUTH)%Z = false).
  { unfold UPS_NORTH, UPS_SOUTH.
    destruct (Z.eqb_spec z 61); [lia |]. destruct (Z.eqb_spec z 62); [lia | reflexivity]. }
  rewrite Hups.
  assert (Hiz : utm_izone_1_1 lat_rad (normalize_lon lon_rad) z = z).
  { unfold utm_izone_1_1. rewrite (unsigned_of_GridZone_1_60 Hz), Z.gtb_ltb.
    destruct (Z.ltb_spec z 1); [lia |]. destruct (Z.ltb_spec 60 z); [lia | reflexivity]. }
  rewrite Hiz.
  rewrite GridZone_of_unsigned_small by (change (2 ^ 31)%Z with 2147483648%Z; lia).
  destruct hemi; cbn [Hemisphere_eqb negb andb];
    destruct (e2 !=? #0);
    repeat match goal with
    | |- context [dmatm_geographic_to_tm ?a ?b ?c ?d ?e ?f ?g ?h] =>
        destruct (dmatm_geographic_to_tm a b c d e f g h)
    | |- context [geographic_to_tm_sphere ?a ?b ?c ?d ?e ?f ?g] =>
        destruct (geographic_to_tm_sphere a b c d e f g)
    end; cbn [fst snd gv_zone gv_hemi gv_N gv_E]; repeat split; reflexivity.
Qed.

(** What [geographic_to_grid] returns for an explicit zone in 1..60 is
    accepted by [grid_to_geographic]: the zone output is again in 1..60 (the
    requested one, or 31, 33, 35 or 37), the hemisphere output is not
    HEMI_AUTO, and [grid_to_geographic] returns 1 on them. *)
Theorem explicit_zone_outputs_accepted
    (a e2 lat_rad lon_rad : T) (z : GridZone) (hemi : Hemisphere) (N0 E0 : T)
    (out : T * T) :
  (1 <= z <= 60)%Z ->
  (lat_rad >? RAD 90) || (lat_rad <? RAD (-90)) = false ->
  let r := snd (geographic_to_grid a e2 lat_rad lon_rad (vars z hemi N0 E0)) in
  (1 <= gv_zone r <= 60)%Z /\
  gv_hemi r <> HEMI_AUTO /\
  fst (grid_to_geographic a e2 (gv_zone r) (gv_hemi r) (gv_N r) (gv_E r) out) = 1%Z.
Proof.
  intros Hz Hlat r.
  assert (Hres : resolve_grid_auto lat_rad z = z).
  { unfold resolve_grid_auto, GRID_AUTO.
    destruct (Z.eqb_spec z 63); [lia | reflexivity]. }
  assert (Hups : (z =? UPS_NORTH)%Z || (z =? UPS_SOUTH)%Z = false).
  { unfold UPS_NORTH, UPS_SOUTH.
    destruct (Z.eqb_spec z 61); [lia |]. destruct (Z.eqb_spec z 62); [lia | reflexivity]. }
  pose proof (geographic_to_grid_utm a e2 lat_rad lon_rad (vars z hemi N0 E0) Hlat) as H.
  cbv zeta in H. cbn [gv_zone gv_hemi] in H. rewrite Hres in H. specialize (H Hups).
  subst r. rewrite H. cbn [snd gv_zone gv_hemi gv_N gv_E].
  set (iz := utm_izone lat_rad (normalize_lon lon_rad) z).
  assert (Hiz : (1 <= iz <= 60)%Z).
  { subst iz. unfold utm_izone. rewrite (unsigned_of_GridZone_1_60 Hz), Z.gtb_ltb.
    destruct (Z.ltb_spec z 1); [lia |]. destruct (Z.ltb_spec 60 z); [lia |].
    cbn [orb].
    repeat match goal with |- context [if ?c then _ else _] => destruct c end; lia. }
  rewrite GridZone_of_unsigned_small by (change (2 ^ 31)%Z with 2147483648%Z; lia).
  set (h := if negb (Hemisphere_eqb hemi HEMI_NORTH) && negb (Hemisphere_eqb hemi HEMI_SOUTH)
            then if lat_rad >=? #0 then HEMI_NORTH else HEMI_SOUTH else hemi).
  assert (Hh : h = HEMI_NORTH \/ h = HEMI_SOUTH).
  { subst h. destruct hemi; cbn; [destruct (lat_rad >=? #0) | |]; auto. }
  split; [exact Hiz |]. split; [destruct Hh as [-> | ->]; discriminate |].
  unfold grid_to_geographic.
  assert (Hups' : (iz =? UPS_NORTH)%Z || (iz =? UPS_SOUTH)%Z = false).
  { unfold UPS_NORTH, UPS_SOUTH.
    destruct (Z.eqb_spec iz 61); [lia |]. destruct (Z.eqb_spec iz 62); [lia | reflexivity]. }
  rewrite Hups', (unsigned_of_GridZone_1_60 Hiz), Z.gtb_ltb.
  destruct (Z.ltb_spec iz 1); [lia |]. destruct (Z.ltb_spec 60 iz); [lia |].
  cbn [orb]. destruct Hh as [-> | ->]; reflexivity.
Qed.

End GridGeneric.

(** * Binary64: latitudes that are not numbers *)

Module Binary64Edge.
Import Binary64.
Import Binary64Facts.

Section AnyLibm.
Context (m : Libm).
Local Open Scope num_scope.

(** A latitude that is not a number passes the range test, both of its
    comparisons being false: with GRID_AUTO the function returns 1, takes the
    UTM branch with the zone of the longitude, and for HEMI_AUTO answers
    HEMI_SOUTH.  An infinite latitude is refused with 0 and nothing
    assigned. *)
Theorem nan_latitude_passes_range_test
    (a e2 lon_rad : float) (hemi : Hemisphere) (N0 E0 : float) :
  let v := {| gv_zone := GRID_AUTO; gv_hemi := hemi; gv_N := N0; gv_E := E0 |} in
  let r := geographic_to_grid a e2 nan lon_rad v in
  fst r = 1%Z /\
  gv_zone (snd r)
    = GridZone_of_unsigned
        (wrap32 (to_unsigned ((normalize_lon lon_rad + RAD 180) / RAD 6) + 1)) /\
  gv_hemi (snd r) = match hemi with HEMI_AUTO => HEMI_SOUTH | h => h end /\
  geographic_to_grid a e2 infinity lon_rad v = (0%Z, v) /\
  geographic_to_grid a e2 neg_infinity lon_rad v = (0%Z, v).
Proof.
  cbv zeta.
  assert (Hlat : (nan >? RAD 90) || (nan <? RAD (-90)) = false)
    by (vm_compute; reflexivity).
  pose proof (geographic_to_grid_utm a e2 nan lon_rad
                {| gv_zone := GRID_AUTO; gv_hemi := hemi; gv_N := N0; gv_E := E0 |} Hlat) as H.
  cbv zeta in H. cbn [gv_zone gv_hemi] in H.
  replace (resolve_grid_auto nan GRID_AUTO) with UTM_ZONE_AUTO in H
    by (vm_compute; reflexivity).
  specialize (H eq_refl). rewrite H. cbn [fst snd gv_zone gv_hemi].
  split; [reflexivity |]. split.
  - unfold utm_izone.
    change (unsigned_of_GridZone UTM_ZONE_AUTO) with 0%Z.
    change ((0 <? 1)%Z || (0 >? 60)%Z) with true. cbv iota.
    replace (nan >=? RAD 56) with false by (vm_compute; reflexivity).
    reflexivity.
  - split.
    + replace (nan >=? #0) with false by (vm_compute; reflexivity).
      destruct hemi; reflexivity.
    + split; unfold geographic_to_grid.
      * replace ((infinity >? RAD 90) || (infinity <? RAD (-90))) with true
          by (vm_compute; reflexivity). reflexivity.
      * replace ((neg_infinity >? RAD 90) || (neg_infinity <? RAD (-90))) with true
          by (vm_compute; reflexivity). reflexivity.
Qed.

End AnyLibm.
End Binary64Edge.

(** * Exact arithmetic: zones, round trips, the sphere as the limit of the
      ellipsoid, axes and symmetries *)

Module ExactGrid.

Import Exact.
Import ExactFacts.
Local Open Scope R_scope.

Local Abbreviation vars z hemi N0 E0 :=
  {| gv_zone := z; gv_hemi := hemi; gv_N := N0; gv_E := E0 |}.

Lemma RAD_exact (z : Z) : RAD z = IZR z / 180 * PI.
Proof. reflexivity. Qed.

Lemma Rltb_true (x y : R) : Rltb x y = true <-> x < y.
Proof. unfold Rltb. destruct (Rlt_dec x y); split; intros; (discriminate || lra || reflexivity). Qed.

Lemma Rltb_false (x y : R) : Rltb x y = false <-> y <= x.
Proof. unfold Rltb. destruct (Rlt_dec x y); split; intros; (discriminate || lra || reflexivity). Qed.



(** C's [fmod] with a positive modulus: the remainder keeps the sign of [x],
    is smaller than [y] in magnitude, and differs from [x] by a multiple of [y]. *)
Lemma Rfmod_pos (x y : R) :
  0 < y ->
  (0 <= x -> 0 <= Rfmod x y < y) /\
  (x <= 0 -> - y < Rfmod x y <= 0) /\
  exists k : Z, Rfmod x y = x + IZR k * y.
Proof.
  intros Hy. unfold Rfmod, Ztrunc.
  assert (Hxy : x = x / y * y) by (field; lra).
  destruct (Rle_dec 0 (x / y)) as [Hq | Hq].
  - pose proof (Zfloor_bound (x / y)) as [Hlo Hhi].
    set (q := IZR (Zfloor (x / y))) in *.
    assert (H1 : 0 <= x - q * y < y).
    { split; [| rewrite Hxy at 1]; nra. }
    assert (H0 : 0 <= x).
    { rewrite Hxy. apply Rmult_le_pos; lra. }
    split; [intros _; exact H1 |]. split.
    + intros Hx. assert (x = 0) by lra.
      assert (Hz : x / y = 0) by (subst x; unfold Rdiv; ring).
      subst q. rewrite Hz in *. change 0 with (IZR 0). rewrite ZfloorZ. simpl. lra.
    + exists (- Zfloor (x / y))%Z. rewrite opp_IZR. fold q. ring.
  - apply Rnot_le_lt in Hq.
    pose proof (Zfloor_bound (- (x / y))) as [Hlo Hhi].
    rewrite opp_IZR.
    set (p := IZR (Zfloor (- (x / y)))) in *.
    assert (Hx : x < 0).
    { rewrite Hxy. nra. }
    assert (H1 : - y < x - - p * y <= 0).
    { split; rewrite Hxy at 1; nra. }
    split; [intros; lra |]. split; [intros _; exact H1 |].
    exists (Zfloor (- (x / y))). fold p. ring.
Qed.

(** The normalisation at the head of [geographic_to_grid], in exact
    arithmetic: the longitude it hands on lies between -pi and pi, and
    differs from the argument by a whole number of turns. *)
Theorem normalize_lon_range (lon_rad : R) :
  - PI <= normalize_lon lon_rad <= PI /\
  exists k : Z, normalize_lon lon_rad = lon_rad + IZR k * (2 * PI).
Proof.
  pose proof PI_RGT_0 as Hpi.
  unfold normalize_lon. rewrite !RAD_exact.
  cbn [ltb sub add fmod num].
  replace (180 / 180 * PI) with PI by field.
  replace (-180 / 180 * PI) with (- PI) by field.
  replace (360 / 180 * PI) with (2 * PI) by field.
  destruct (Rltb PI lon_rad || Rltb lon_rad (- PI)) eqn:Hout.
  - assert (H2 : 0 < 2 * PI) by lra.
    destruct (Rfmod_pos lon_rad H2) as (Hp1 & Hn1 & k1 & Hk1).
    set (r1 := Rfmod lon_rad (2 * PI)) in *.
    assert (Hr1 : 0 <= r1 + 2 * PI).
    { destruct (Rle_dec 0 lon_rad); [pose proof (Hp1 ltac:(lra)) | pose proof (Hn1 ltac:(lra))]; lra. }
    destruct (Rfmod_pos (r1 + 2 * PI) H2) as (Hp2 & _ & k2 & Hk2).
    specialize (Hp2 Hr1).
    set (r2 := Rfmod (r1 + 2 * PI) (2 * PI)) in *.
    destruct (Rltb PI r2) eqn:Hr2.
    + apply Rltb_true in Hr2. split; [lra |].
      exists (k1 + k2)%Z. rewrite Hk2, Hk1, plus_IZR. ring.
    + apply Rltb_false in Hr2. split; [lra |].
      exists (k1 + k2 + 1)%Z. rewrite Hk2, Hk1, !plus_IZR. ring.
  - apply orb_false_iff in Hout as [H1 H2].
    apply Rltb_false in H1, H2. split; [lra |].
    exists 0%Z. ring.
Qed.



Lemma tan_shift_PI (x : R) : Rtrigo1.tan (x + PI) = Rtrigo1.tan x.
Proof.
  unfold Rtrigo1.tan. rewrite neg_sin, neg_cos.
  unfold Rdiv. rewrite Rinv_opp. ring.
Qed.

(** [atan2] gives back the angle of a point in polar form. *)
Lemma Ratan2_polar (r lam : R) :
  0 < r -> - PI < lam <= PI ->
  Ratan2 (r * Rtrigo_def.sin lam) (r * Rtrigo_def.cos lam) = lam.
Proof.
  intros Hr Hlam. pose proof PI_RGT_0 as Hpi.
  assert (Hq : forall c, c <> 0 ->
            r * Rtrigo_def.sin lam / (r * c) = Rtrigo_def.sin lam / c)
    by (intros c Hc; field; split; lra).
  unfold Ratan2.
  destruct (Rlt_dec lam (- (PI / 2))) as [H1 | H1].
  - (* third quadrant *)
    assert (Hc : 0 < Rtrigo_def.cos (lam + PI)) by (apply cos_gt_0; lra).
    assert (Hs : 0 < Rtrigo_def.sin (lam + PI)) by (apply sin_gt_0; lra).
    rewrite neg_cos in Hc. rewrite neg_sin in Hs.
    destruct (Rlt_dec 0 (r * Rtrigo_def.cos lam)) as [H | _]; [exfalso; nra |].
    destruct (Rlt_dec (r * Rtrigo_def.cos lam) 0) as [_ | H]; [| exfalso; nra].
    destruct (Rlt_dec (r * Rtrigo_def.sin lam) 0) as [_ | H]; [| exfalso; nra].
    rewrite Hq by lra. fold (Rtrigo1.tan lam).
    rewrite <- tan_shift_PI, atan_tan by lra. ring.
  - destruct (Req_dec_T lam (- (PI / 2))) as [H2 | H2].
    + subst lam. rewrite cos_neg, sin_neg, cos_PI2, sin_PI2.
      rewrite Rmult_0_r.
      destruct (Rlt_dec 0 0) as [H | _]; [exfalso; lra |].
      destruct (Rlt_dec 0 (r * - (1))) as [H | _]; [exfalso; lra |].
      destruct (Rlt_dec (r * - (1)) 0) as [_ | H]; [reflexivity | exfalso; lra].
    + destruct (Rlt_dec lam (PI / 2)) as [H3 | H3].
      * assert (Hc : 0 < Rtrigo_def.cos lam) by (apply cos_gt_0; lra).
        destruct (Rlt_dec 0 (r * Rtrigo_def.cos lam)) as [_ | H]; [| exfalso; nra].
        rewrite Hq by lra. fold (Rtrigo1.tan lam). apply atan_tan. lra.
      * destruct (Req_dec_T lam (PI / 2)) as [H4 | H4].
        -- subst lam. rewrite cos_PI2, sin_PI2, Rmult_0_r, Rmult_1_r.
           destruct (Rlt_dec 0 0) as [H | _]; [exfalso; lra |].
           destruct (Rlt_dec 0 r) as [_ | H]; [reflexivity | contradiction].
        -- assert (Hc : Rtrigo_def.cos lam < 0) by (apply cos_lt_0; lra).
           assert (Hs : 0 <= Rtrigo_def.sin lam) by (apply sin_ge_0; lra).
           destruct (Rlt_dec 0 (r * Rtrigo_def.cos lam)) as [H | _]; [exfalso; nra |].
           destruct (Rlt_dec (r * Rtrigo_def.cos lam) 0) as [_ | H]; [| exfalso; nra].
           destruct (Rlt_dec (r * Rtrigo_def.sin lam) 0) as [H | _]; [exfalso; nra |].
           rewrite Hq by lra. fold (Rtrigo1.tan lam).
           replace lam with (lam - PI + PI) at 1 by ring.
           rewrite tan_shift_PI, atan_tan by lra. ring.
Qed.

(** The distance from the pole, [sqrt (x*x + y*y)], of a point in polar form. *)
Lemma polar_radius (r lam : R) :
  0 <= r ->
  R_sqrt.sqrt (r * Rtrigo_def.sin lam * (r * Rtrigo_def.sin lam)
               + r * Rtrigo_def.cos lam * (r * Rtrigo_def.cos lam)) = r.
Proof.
  intros Hr. pose proof (sin2_cos2 lam) as H. unfold Rsqr in H.
  replace (r * Rtrigo_def.sin lam * (r * Rtrigo_def.sin lam)
           + r * Rtrigo_def.cos lam * (r * Rtrigo_def.cos lam))
    with (r * r * (Rtrigo_def.sin lam * Rtrigo_def.sin lam
                   + Rtrigo_def.cos lam * Rtrigo_def.cos lam)) by ring.
  rewrite H, Rmult_1_r. apply sqrt_square. exact Hr.
Qed.

(** The spherical polar pair about the north pole. *)
Lemma sphere_ps_north (radius k0 FN FE lat_rad lon_rad : R) (out out' : R * R) :
  0 < radius * k0 ->
  - (PI / 2) < lat_rad < PI / 2 ->
  - PI < lon_rad <= PI ->
  let NE := geographic_to_ps_sphere radius k0 HEMI_NORTH FN FE lat_rad lon_rad out in
  ps_to_geographic_sphere radius k0 HEMI_NORTH FN FE (fst NE) (snd NE) out'
    = (lat_rad, lon_rad).
Proof.
  intros HR Hlat Hlon NE. subst NE. pose proof PI_RGT_0 as Hpi.
  unfold geographic_to_ps_sphere, ps_to_geographic_sphere. cbn [fst snd].
  cbn [of_Z add sub mul div opp M_PI sqrt sin cos tan asin atan atan2 num].
  set (w := Rtrigo1.tan (PI / 4 - lat_rad / 2)).
  assert (Hw : 0 < w) by (apply tan_gt_0; lra).
  set (rho := 2 * (radius * k0) * w).
  assert (Hrho : 0 < rho) by (subst rho; nra).
  replace (FE + rho * Rtrigo_def.sin lon_rad - FE) with (rho * Rtrigo_def.sin lon_rad) by ring.
  replace (FN - rho * Rtrigo_def.cos lon_rad - FN) with (- (rho * Rtrigo_def.cos lon_rad)) by ring.
  rewrite Ropp_involutive.
  replace (rho * Rtrigo_def.sin lon_rad * (rho * Rtrigo_def.sin lon_rad)
           + - (rho * Rtrigo_def.cos lon_rad) * - (rho * Rtrigo_def.cos lon_rad))
    with (rho * Rtrigo_def.sin lon_rad * (rho * Rtrigo_def.sin lon_rad)
          + rho * Rtrigo_def.cos lon_rad * (rho * Rtrigo_def.cos lon_rad)) by ring.
  rewrite polar_radius by lra.
  rewrite (Ratan2_polar Hrho Hlon).
  replace (rho / (2 * (radius * k0))) with w
    by (subst rho; field; split; intros Hz; rewrite Hz in HR; lra).
  subst w. rewrite atan_tan by lra.
  replace (2 * (PI / 4 - lat_rad / 2)) with (PI / 2 - lat_rad) by field.
  rewrite cos_shift, asin_sin by lra. reflexivity.
Qed.

(** The spherical polar pair about the south pole. *)
Lemma sphere_ps_south (radius k0 FN FE lat_rad lon_rad : R) (out out' : R * R) :
  0 < radius * k0 ->
  - (PI / 2) < lat_rad < PI / 2 ->
  - PI < lon_rad <= PI ->
  let NE := geographic_to_ps_sphere radius k0 HEMI_SOUTH FN FE lat_rad lon_rad out in
  ps_to_geographic_sphere radius k0 HEMI_SOUTH FN FE (fst NE) (snd NE) out'
    = (lat_rad, lon_rad).
Proof.
  intros HR Hlat Hlon NE. subst NE. pose proof PI_RGT_0 as Hpi.
  unfold geographic_to_ps_sphere, ps_to_geographic_sphere. cbn [fst snd].
  cbn [of_Z add sub mul div opp M_PI sqrt sin cos tan asin atan atan2 num].
  set (w := Rtrigo1.tan (PI / 4 + lat_rad / 2)).
  assert (Hw : 0 < w) by (apply tan_gt_0; lra).
  set (rho := 2 * (radius * k0) * w).
  assert (Hrho : 0 < rho) by (subst rho; nra).
  replace (FE + rho * Rtrigo_def.sin lon_rad - FE) with (rho * Rtrigo_def.sin lon_rad) by ring.
  replace (FN + rho * Rtrigo_def.cos lon_rad - FN) with (rho * Rtrigo_def.cos lon_rad) by ring.
  rewrite polar_radius by lra.
  rewrite (Ratan2_polar Hrho Hlon).
  replace (rho / (2 * (radius * k0))) with w
    by (subst rho; field; split; intros Hz; rewrite Hz in HR; lra).
  subst w. rewrite atan_tan by lra.
  replace (2 * (PI / 4 + lat_rad / 2)) with (PI / 2 - - lat_rad) by field.
  rewrite cos_shift, sin_neg, asin_opp, asin_sin by lra.
  f_equal. ring.
Qed.

(** In exact arithmetic the spherical polar inverse undoes the spherical
    polar projection, in either hemisphere, for every latitude strictly
    between the poles and every longitude in (-pi, pi]. *)
Theorem sphere_ps_round_trip
    (radius k0 FN FE lat_rad lon_rad : R) (hemi : Hemisphere) (out out' : R * R) :
  0 < radius * k0 ->
  hemi <> HEMI_AUTO ->
  - (PI / 2) < lat_rad < PI / 2 ->
  - PI < lon_rad <= PI ->
  let NE := geographic_to_ps_sphere radius k0 hemi FN FE lat_rad lon_rad out in
  ps_to_geographic_sphere radius k0 hemi FN FE (fst NE) (snd NE) out' = (lat_rad, lon_rad).
Proof.
  intros HR Hhemi Hlat Hlon.
  destruct hemi; [contradiction Hhemi; reflexivity | |].
  - apply sphere_ps_north; assumption.
  - apply sphere_ps_south; assumption.
Qed.












Lemma Ratanh_opp (x : R) : Ratanh (- x) = - Ratanh x.
Proof.
  unfold Ratanh.
  replace ((1 + - x) / (1 - - x)) with (/ ((1 + x) / (1 - x))).
  - destruct (Rlt_dec 0 ((1 + x) / (1 - x))) as [H | H].
    + rewrite ln_Rinv by exact H. lra.
    + assert (Hle : (1 + x) / (1 - x) <= 0) by lra.
      assert (Hinv : / ((1 + x) / (1 - x)) <= 0).
      { destruct (Req_dec_T ((1 + x) / (1 - x)) 0) as [-> | Hne].
        - rewrite Rinv_0. lra.
        - left. apply Rinv_lt_0_compat. lra. }
      unfold ln.
      destruct (Rlt_dec 0 (/ ((1 + x) / (1 - x)))) as [H1 | _]; [exfalso; lra |].
      destruct (Rlt_dec 0 ((1 + x) / (1 - x))) as [H2 | _]; [exfalso; lra |].
      lra.
  - unfold Rdiv. rewrite Rinv_mult, Rinv_inv. unfold Rminus. rewrite Ropp_involutive. ring.
Qed.

Lemma sinh_opp (x : R) : Rtrigo_def.sinh (- x) = - Rtrigo_def.sinh x.
Proof. unfold Rtrigo_def.sinh. rewrite Ropp_involutive. lra. Qed.

Lemma cosh_opp (x : R) : Rtrigo_def.cosh (- x) = Rtrigo_def.cosh x.
Proof. unfold Rtrigo_def.cosh. rewrite Ropp_involutive. lra. Qed.



(** The two mirror symmetries of the current ellipsoidal projection, in
    exact arithmetic: a point and its mirror image in the central meridian
    have the same northing and opposite eastings about the false easting; a
    point and its mirror image in the equator have the same easting and
    opposite northings about the false northing. *)
Theorem tm_mirror_symmetry (a e2 k0 lon_mer FN FE lat_rad dl : R) :
  let p := geographic_to_tm a e2 k0 lon_mer FN FE lat_rad (lon_mer + dl) in
  let east_west := geographic_to_tm a e2 k0 lon_mer FN FE lat_rad (lon_mer - dl) in
  let north_south := geographic_to_tm a e2 k0 lon_mer FN FE (- lat_rad) (lon_mer + dl) in
  fst east_west = fst p /\ snd east_west - FE = - (snd p - FE) /\
  snd north_south = snd p /\ fst north_south - FN = - (fst p - FN).
Proof.
  cbv zeta.
  unfold geographic_to_tm. cbn [fst snd].
  cbn [of_Z add sub mul div opp sqrt sin cos atan sinh cosh atanh num].
  set (n := (1 - R_sqrt.sqrt (1 - e2)) / (2 - (1 - R_sqrt.sqrt (1 - e2)))).
  set (tf := 2 * R_sqrt.sqrt n / (1 + n)).
  replace (lon_mer - dl - lon_mer) with (- (lon_mer + dl - lon_mer)) by ring.
  set (d := lon_mer + dl - lon_mer).
  rewrite !sin_neg, !cos_neg.
  replace (tf * - Rtrigo_def.sin lat_rad) with (- (tf * Rtrigo_def.sin lat_rad)) by ring.
  rewrite !Ratanh_opp.
  replace (- Ratanh (Rtrigo_def.sin lat_rad) - tf * - Ratanh (tf * Rtrigo_def.sin lat_rad))
    with (- (Ratanh (Rtrigo_def.sin lat_rad) - tf * Ratanh (tf * Rtrigo_def.sin lat_rad)))
    by ring.
  rewrite sinh_opp.
  set (t := Rtrigo_def.sinh
              (Ratanh (Rtrigo_def.sin lat_rad) - tf * Ratanh (tf * Rtrigo_def.sin lat_rad))).
  replace (- t * - t) with (t * t) by ring.
  replace (- Rtrigo_def.sin d / R_sqrt.sqrt (1 + t * t))
    with (- (Rtrigo_def.sin d / R_sqrt.sqrt (1 + t * t))) by (unfold Rdiv; ring).
  replace (- t / Rtrigo_def.cos d) with (- (t / Rtrigo_def.cos d)) by (unfold Rdiv; ring).
  rewrite Ratanh_opp, atan_opp.
  set (xi := Ratan.atan (t / Rtrigo_def.cos d)).
  set (eta := Ratanh (Rtrigo_def.sin d / R_sqrt.sqrt (1 + t * t))).
  rewrite <- !Ropp_mult_distr_r.
  rewrite !sinh_opp, !cosh_opp, !sin_neg, !cos_neg.
  repeat split; ring.
Qed.

(** With the point on the central meridian ([E = FE]) the code after the
    loop returns the [phi] of the loop and the central meridian. *)
Lemma dmatm_tail_on_meridian (a e2 k0 lon_mer phi s : R) :
  dmatm_tm_to_geographic_tail a e2 k0 lon_mer 0 phi s = (phi, lon_mer).
Proof.
  unfold dmatm_tm_to_geographic_tail.
  cbn [of_Z add sub mul div opp sqrt cos num].
  f_equal; unfold Rdiv; ring.
Qed.

(** On the central meridian the northing of the legacy projection is
    [FN + T1], with the [T1] the loop of the legacy inverse compares with. *)
Lemma dmatm_northing_on_meridian (a e2 k0 lon_mer FN FE phi : R) :
  let f := 1 - R_sqrt.sqrt (1 - e2) in
  let n := f / (2 - f) in
  dmatm_geographic_to_tm a e2 k0 lon_mer FN FE phi lon_mer
    = (FN + snd (dmatm_T1 a n k0 phi), FE).
Proof.
  unfold dmatm_geographic_to_tm, dmatm_T1. cbn [snd].
  cbn [of_Z add sub mul div opp sqrt sin cos num].
  rewrite Rminus_diag. f_equal; unfold Rdiv; ring.
Qed.

(** The legacy pair on the central meridian, in exact arithmetic: when
    [dmatm_tm_to_geographic] returns for a grid point with [E = FE], the
    longitude is the central meridian, and [dmatm_geographic_to_tm] maps the
    returned position to a northing within the loop tolerance, 0.001 m, of
    the northing it came from, with easting [FE]. *)
Theorem dmatm_meridian_within_tolerance
    (fuel : nat) (a e2 k0 lon_mer FN FE N lat_rad lon_rad : R) :
  dmatm_tm_to_geographic fuel a e2 k0 lon_mer FN FE N FE = Some (lat_rad, lon_rad) ->
  lon_rad = lon_mer /\
  Rabs (fst (dmatm_geographic_to_tm a e2 k0 lon_mer FN FE lat_rad lon_rad) - N) < 1 / 1000 /\
  snd (dmatm_geographic_to_tm a e2 k0 lon_mer FN FE lat_rad lon_rad) = FE.
Proof.
  unfold dmatm_tm_to_geographic.
  cbn [of_Z add sub mul div opp sqrt num].
  set (f := 1 - R_sqrt.sqrt (1 - e2)). set (n := f / (2 - f)).
  destruct (dmatm_phi_loop fuel a n k0 (N - FN) ((N - FN) / (a * (1 - f)) / k0))
    as [[phi s] |] eqn:Hloop; [| discriminate].
  rewrite Rminus_diag, dmatm_tail_on_meridian. intros [= <- <-].
  destruct (dmatm_phi_loop_sound _ _ _ _ _ _ Hloop) as [Hc _]. cbn [fst] in Hc.
  unfold dmatm_converged, TM_TO_GEOGRAPHIC_TOLERANCE_M in Hc.
  cbn [of_Z sub div ltb fabs num] in Hc. apply Rltb_true in Hc.
  pose proof (dmatm_northing_on_meridian a e2 k0 lon_mer FN FE phi) as Hfwd.
  cbv zeta in Hfwd. fold f n in Hfwd. rewrite Hfwd. cbn [fst snd].
  split; [reflexivity |]. split; [| reflexivity].
  replace (FN + snd (dmatm_T1 a n k0 phi) - N) with (snd (dmatm_T1 a n k0 phi) - (N - FN))
    by ring.
  exact Hc.
Qed.

(** At the false northing the loop leaves at its first test, with latitude 0. *)
Lemma dmatm_inverse_at_false_origin (a e2 k0 lon_mer FN FE : R) :
  dmatm_tm_to_geographic 1 a e2 k0 lon_mer FN FE FN FE = Some (0, lon_mer).
Proof.
  unfold dmatm_tm_to_geographic.
  cbn [of_Z add sub mul div opp sqrt num].
  set (f := 1 - R_sqrt.sqrt (1 - e2)). set (n := f / (2 - f)).
  rewrite !Rminus_diag.
  replace (0 / (a * (1 - f)) / k0) with 0 by (unfold Rdiv; ring).
  assert (HT1 : snd (dmatm_T1 a n k0 0) = 0).
  { unfold dmatm_T1. cbn [snd]. cbn [of_Z add sub mul div sin cos num].
    rewrite sin_0, cos_0. unfold Rdiv. ring. }
  rewrite dmatm_phi_loop_exit.
  - rewrite dmatm_tail_on_meridian. reflexivity.
  - unfold dmatm_converged, TM_TO_GEOGRAPHIC_TOLERANCE_M. rewrite HT1.
    cbn [of_Z sub div ltb fabs num]. apply Rltb_true.
    rewrite Rminus_diag, Rabs_R0. lra.
Qed.

Lemma dmatm_meridian_within_tolerance_witness :
  dmatm_tm_to_geographic 1 6378388 (6722670022 / 1000000000000) (9996 / 10000)
    0 0 500000 0 500000 = Some (0, 0) /\
  Rabs (fst (dmatm_geographic_to_tm 6378388 (6722670022 / 1000000000000) (9996 / 10000)
               0 0 500000 0 0) - 0) < 1 / 1000.
Proof.
  pose proof (dmatm_inverse_at_false_origin
                6378388 (6722670022 / 1000000000000) (9996 / 10000) 0 0 500000) as H.
  split; [exact H |].
  exact (proj1 (proj2 (@dmatm_meridian_within_tolerance 1 _ _ _ _ _ _ _ _ _ H))).
Defined.





(** The poles, in exact arithmetic: the polar projections of the ellipsoid
    and of the sphere map the pole of their hemisphere to the false origin,
    whatever the longitude. *)
Theorem pole_is_false_origin (a e2 k0 FN FE lon_rad : R) (out : R * R) :
  geographic_to_ps a e2 k0 HEMI_NORTH FN FE (PI / 2) lon_rad out = (FN, FE) /\
  geographic_to_ps a e2 k0 HEMI_SOUTH FN FE (- (PI / 2)) lon_rad out = (FN, FE) /\
  geographic_to_ps_sphere a k0 HEMI_NORTH FN FE (PI / 2) lon_rad out = (FN, FE) /\
  geographic_to_ps_sphere a k0 HEMI_SOUTH FN FE (- (PI / 2)) lon_rad out = (FN, FE).
Proof.
  assert (Hn : PI / 4 - PI / 2 / 2 = 0) by field.
  assert (Hs : PI / 4 + - (PI / 2) / 2 = 0) by field.
  unfold geographic_to_ps, geographic_to_ps_sphere.
  cbn [Hemisphere_eqb of_Z add sub mul div opp M_PI sqrt sin cos tan pow num].
  rewrite Hn, Hs, tan_0.
  repeat split; f_equal; ring.
Qed.


Lemma sphere_ps_round_trip_witness :
  0 < 6371000 * (994 / 1000) /\ HEMI_NORTH <> HEMI_AUTO /\
  - (PI / 2) < PI / 4 < PI / 2 /\ - PI < 0 <= PI /\
  ps_to_geographic_sphere 6371000 (994 / 1000) HEMI_NORTH 2000000 2000000
    (fst (geographic_to_ps_sphere 6371000 (994 / 1000) HEMI_NORTH 2000000 2000000
            (PI / 4) 0 (0, 0)))
    (snd (geographic_to_ps_sphere 6371000 (994 / 1000) HEMI_NORTH 2000000 2000000
            (PI / 4) 0 (0, 0)))
    (0, 0) = (PI / 4, 0).
Proof.
  pose proof PI_RGT_0 as Hpi.
  assert (HR : 0 < 6371000 * (994 / 1000)) by lra.
  assert (Hh : HEMI_NORTH <> HEMI_AUTO) by discriminate.
  assert (Hlat : - (PI / 2) < PI / 4 < PI / 2) by lra.
  assert (Hlon : - PI < 0 <= PI) by lra.
  split; [exact HR |]. split; [exact Hh |]. split; [exact Hlat |]. split; [exact Hlon |].
  exact (@sphere_ps_round_trip 6371000 (994 / 1000) 2000000 2000000 (PI / 4) 0 HEMI_NORTH
           (0, 0) (0, 0) HR Hh Hlat Hlon).
Defined.



End ExactGrid.

(** * The reference ellipsoids *)

Section DatumFacts.

Context {T : Type} {num : Num T}.
Local Open Scope string_scope.

(** The table follows the enumeration: each of the 23 enumerators of
    [EllipseID] selects the entry whose identification code is the
    enumerator's suffix.  The alias ELLIPSE_GRS80, defined as ELLIPSE_EF,
    selects "Everest, Pakistan"; the entry "Geodetic Reference System 1980"
    is the one of ELLIPSE_RF. *)
Theorem ellipse_table_follows_enum :
  map id_code_of
    [ELLIPSE_AA; ELLIPSE_AN; ELLIPSE_BR; ELLIPSE_BN; ELLIPSE_CC; ELLIPSE_CD; ELLIPSE_EB;
     ELLIPSE_EA; ELLIPSE_EC; ELLIPSE_EF; ELLIPSE_EE; ELLIPSE_ED; ELLIPSE_RF; ELLIPSE_HE;
     ELLIPSE_HO; ELLIPSE_ID; ELLIPSE_IN; ELLIPSE_KA; ELLIPSE_AM; ELLIPSE_FA; ELLIPSE_SA;
     ELLIPSE_WD; ELLIPSE_WE]
    = ["AA"; "AN"; "BR"; "BN"; "CC"; "CD"; "EB"; "EA"; "EC"; "EF"; "EE"; "ED"; "RF"; "HE";
       "HO"; "ID"; "IN"; "KA"; "AM"; "FA"; "SA"; "WD"; "WE"] /\
  se_name (_precompiled_ellipse ELLIPSE_GRS80) = "Everest, Pakistan" /\
  se_name (_precompiled_ellipse ELLIPSE_RF) = "Geodetic Reference System 1980" /\
  se_name (_precompiled_ellipse ELLIPSE_WGS84) = "WGS 1984" /\
  se_name (_precompiled_ellipse ELLIPSE_INT24) = "International 1924".
Proof. repeat split. Qed.

(** [_precompiled_ellipse] never reads outside the table: for an identifier
    from 0 to 22 it returns the entry of that index, and for any other
    [int], negative ones included, the entry of ELLIPSE_WGS84. *)
Theorem precompiled_ellipse_in_range (id : EllipseID) :
  (- 2 ^ 31 <= id < 2 ^ 31)%Z ->
  In (_precompiled_ellipse id) reference_ellipse /\
  ((0 <= id <= 22)%Z ->
   _precompiled_ellipse id = nth (Z.to_nat id) reference_ellipse (std_ellipse "" "" (of_Z 0) (of_Z 0))) /\
  ((id < 0 \/ 22 < id)%Z -> _precompiled_ellipse id = _precompiled_ellipse ELLIPSE_WGS84).
Proof.
  intros Hint.
  change (2 ^ 31)%Z with 2147483648%Z in Hint.
  assert (Hw : (0 <= id -> wrap32 id = id)%Z).
  { intros H. apply wrap32_small. change (2 ^ 32)%Z with 4294967296%Z. lia. }
  assert (Hn : (id < 0 -> wrap32 id = id + 4294967296)%Z).
  { intros H. unfold wrap32. change (2 ^ 32)%Z with 4294967296%Z.
    symmetry. apply (Z.mod_unique id 4294967296 (-1)); lia. }
  unfold _precompiled_ellipse. change NUMOF_reference_ellipse with 23%Z.
  split; [| split].
  - set (i := if (wrap32 id >=? 23)%Z then wrap32 ELLIPSE_WGS84 else wrap32 id).
    assert (Hi : (0 <= i < 23)%Z).
    { subst i. pose proof (Z.mod_pos_bound id (2 ^ 32) ltac:(reflexivity)) as Hb.
      fold (wrap32 id) in Hb.
      destruct (Z.geb_spec (wrap32 id) 23);
        [vm_compute; split; [discriminate | reflexivity] | lia]. }
    apply nth_In. change (List.length reference_ellipse) with 23%nat. lia.
  - intros Hin. rewrite Hw by lia.
    destruct (Z.geb_spec id 23); [lia | reflexivity].
  - intros Hout.
    assert (Hge : (wrap32 id >= 23)%Z).
    { destruct (Z.lt_ge_cases id 0); [rewrite Hn by lia | rewrite Hw by lia]; lia. }
    destruct (Z.geb_spec (wrap32 id) 23); [reflexivity | lia].
Qed.

End DatumFacts.

Section EllipseTable.

Import Binary64.
Local Open Scope R_scope.

Lemma ECC2_exact (f : R) :
  f <> 0 -> ECC2 (num := Exact.num) f = 1 - (1 - 1 / f) * (1 - 1 / f) - 1 / (f * f).
Proof.
  intros Hf. unfold ECC2. cbn [of_Z sub mul div Exact.num]. field. exact Hf.
Qed.

(** What [ECC2] computes.  In exact arithmetic [ECC2(f)] is [2/f - 2/f^2]:
    the squared eccentricity [1 - (1 - 1/f)^2] of the ellipsoid of inverse
    flattening [f], less [1/f^2]; for [f > 1] it lies strictly between 0 and
    that squared eccentricity.  In binary64 the [e2] the table holds for
    WGS 1984 and for International 1924 differ by more than 0.00001 from
    0.006694379990 and 0.006722670022, the values the test programs pass for
    these two ellipsoids. *)
Theorem ECC2_value :
  (forall f : R, f <> 0 ->
     ECC2 (num := Exact.num) f = 1 - (1 - 1 / f) * (1 - 1 / f) - 1 / (f * f)) /\
  (forall f : R, 1 < f ->
     0 < ECC2 (num := Exact.num) f < 1 - (1 - 1 / f) * (1 - 1 / f)) /\
  (forall m : Libm,
     near (se_e2 (_precompiled_ellipse (num := Binary64.num m) ELLIPSE_WGS84))
          e2_WGS84 (1 / 100000)%float = false /\
     near (se_e2 (_precompiled_ellipse (num := Binary64.num m) ELLIPSE_INT24))
          e2_International (1 / 100000)%float = false).
Proof.
  split; [| split].
  - intros f Hf. apply ECC2_exact. exact Hf.
  - intros f Hf. rewrite ECC2_exact by lra.
    assert (Hinv : 0 < / f < 1).
    { split; [apply Rinv_0_lt_compat; lra |].
      rewrite <- Rinv_1. apply Rinv_lt_contravar; lra. }
    unfold Rdiv. rewrite !Rmult_1_l, Rinv_mult.
    set (u := / f) in *. split; nra.
  - intros m. split; vm_compute; reflexivity.
Qed.

End EllipseTable.

(** * Angles as text: what [dmsStringToRad] reads and [radToDMSString] writes *)

Section AngleTextFacts.

Context {T : Type} {num : Num T}.
Local Open Scope string_scope.

Lemma scan_degs_chars (s r : string) (a v : Z) :
  scan_degs a s = Some (v, r) -> all_chars dms_char r = true -> all_chars dms_char s = true.
Proof.
  revert a. induction s as [| c s IH]; intros a; cbn [scan_degs].
  - intros [= <- <-]. trivial.
  - destruct (is_digit c) eqn:Hd.
    + intros H Hr. cbn [all_chars]. unfold dms_char at 1. rewrite Hd. cbn [orb andb].
      exact (IH _ H Hr).
    + destruct ((c =? ":")%char || (c =? "d")%char) eqn:Hsep; [| discriminate].
      intros [= <- <-] Hr. cbn [all_chars]. rewrite Hr, andb_true_r.
      unfold dms_char. apply orb_true_iff in Hsep as [-> | ->];
        rewrite ?orb_true_r; reflexivity.
Qed.

Lemma scan_mins_chars (s r : string) (a v : Z) :
  scan_mins a s = Some (v, r) -> all_chars dms_char r = true -> all_chars dms_char s = true.
Proof.
  revert a. induction s as [| c s IH]; intros a; cbn [scan_mins].
  - intros [= <- <-]. trivial.
  - destruct (is_digit c) eqn:Hd.
    + intros H Hr. cbn [all_chars]. unfold dms_char at 1. rewrite Hd. cbn [orb andb].
      exact (IH _ H Hr).
    + destruct ((c =? ":")%char || (c =? "m")%char) eqn:Hsep; [| discriminate].
      intros [= <- <-] Hr. cbn [all_chars]. rewrite Hr, andb_true_r.
      unfold dms_char. apply orb_true_iff in Hsep as [-> | ->];
        rewrite ?orb_true_r; reflexivity.
Qed.

Lemma scan_secs_chars (s r : string) (a v : Z) :
  scan_secs a s = Some (v, r) -> all_chars dms_char r = true -> all_chars dms_char s = true.
Proof.
  revert a. induction s as [| c s IH]; intros a; cbn [scan_secs].
  - intros [= <- <-]. trivial.
  - destruct (is_digit c) eqn:Hd.
    + intros H Hr. cbn [all_chars]. unfold dms_char at 1. rewrite Hd. cbn [orb andb].
      exact (IH _ H Hr).
    + destruct (c =? ".")%char eqn:Hdot.
      * intros [= <- <-] Hr. cbn [all_chars]. rewrite Hr, andb_true_r.
        unfold dms_char. rewrite Hdot, ?orb_true_r. reflexivity.
      * destruct (c =? "s")%char eqn:Hs; [| discriminate].
        intros [= <- <-] Hr. exact Hr.
Qed.

Lemma scan_fracs_chars (s r : string) (a b v w : Z) :
  scan_fracs a b s = Some (v, w, r) -> all_chars dms_char r = true ->
  all_chars dms_char s = true.
Proof.
  revert a b. induction s as [| c s IH]; intros a b; cbn [scan_fracs].
  - intros [= <- <- <-]. trivial.
  - destruct (is_digit c) eqn:Hd.
    + intros H Hr. cbn [all_chars]. unfold dms_char at 1. rewrite Hd. cbn [orb andb].
      exact (IH _ _ H Hr).
    + destruct (c =? "s")%char eqn:Hs; [| discriminate].
      intros [= <- <- <-] Hr. cbn [all_chars]. rewrite Hr, andb_true_r.
      unfold dms_char. rewrite Hs, ?orb_true_r. reflexivity.
Qed.

(** [dmsStringToRad] returns [true] only for a string made of digits and
    the characters [+ - : d m . s]: on any other character it returns
    [false], and then it leaves [rad] as it was. *)
Theorem dmsStringToRad_rejects (str : string) (rad : T) :
  all_chars dms_char str = false ->
  dmsStringToRad str rad = (false, rad).
Proof.
  intros Hbad. unfold dmsStringToRad.
  set (p := match str with
            | String "-" s' => (true, s')
            | String "+" s' => (false, s')
            | _ => (false, str)
            end).
  assert (Hp : all_chars dms_char (snd p) = true -> all_chars dms_char str = true).
  { subst p. destruct str as [| c s]; [trivial |].
    destruct (Ascii.eqb_spec c "-") as [-> | Hm]; [cbn; trivial |].
    destruct (Ascii.eqb_spec c "+") as [-> | Hpl]; [cbn; trivial |].
    destruct c as [[] [] [] [] [] [] [] []]; cbn [snd]; trivial;
      exfalso; (apply Hm; reflexivity) || (apply Hpl; reflexivity). }
  destruct p as [negative s]. cbn [snd] in Hp.
  destruct (scan_degs 0 s) as [[degs s1] |] eqn:H1; [| reflexivity].
  destruct (scan_mins 0 s1) as [[mins s2] |] eqn:H2; [| reflexivity].
  destruct (scan_secs 0 s2) as [[secs s3] |] eqn:H3; [| reflexivity].
  destruct (scan_fracs 0 1 s3) as [[[fracs frac10s] s4] |] eqn:H4; [| reflexivity].
  destruct s4 as [| c s4]; [| reflexivity].
  exfalso.
  pose proof (scan_fracs_chars _ _ _ H4 eq_refl) as A4.
  pose proof (scan_secs_chars _ _ H3 A4) as A3.
  pose proof (scan_mins_chars _ _ H2 A3) as A2.
  pose proof (scan_degs_chars _ _ H1 A2) as A1.
  rewrite (Hp A1) in Hbad. discriminate.
Qed.

Lemma is_digit_not_sep (c : ascii) :
  is_digit c = true ->
  c <> ":"%char /\ c <> "d"%char /\ c <> "m"%char /\ c <> "."%char /\ c <> "s"%char
  /\ c <> "+"%char /\ c <> "-"%char.
Proof.
  intros H. repeat split; intros ->; discriminate H.
Qed.

Lemma scan_degs_digits (D rest : string) (sep : ascii) (a : Z) :
  all_chars is_digit D = true ->
  sep = ":"%char \/ sep = "d"%char ->
  scan_degs a (D ++ String sep rest) = Some (unsigned_decimal a D, rest).
Proof.
  intros HD Hsep. revert a. induction D as [| c D IH]; intros a; cbn.
  - destruct Hsep as [-> | ->]; reflexivity.
  - cbn in HD. apply andb_true_iff in HD as [Hc HD]. rewrite Hc. apply IH. exact HD.
Qed.

Lemma scan_mins_digits (D rest : string) (sep : ascii) (a : Z) :
  all_chars is_digit D = true ->
  sep = ":"%char \/ sep = "m"%char ->
  scan_mins a (D ++ String sep rest) = Some (unsigned_decimal a D, rest).
Proof.
  intros HD Hsep. revert a. induction D as [| c D IH]; intros a; cbn.
  - destruct Hsep as [-> | ->]; reflexivity.
  - cbn in HD. apply andb_true_iff in HD as [Hc HD]. rewrite Hc. apply IH. exact HD.
Qed.

Lemma scan_secs_digits_dot (D rest : string) (a : Z) :
  all_chars is_digit D = true ->
  scan_secs a (D ++ String "." rest) = Some (unsigned_decimal a D, rest).
Proof.
  intros HD. revert a. induction D as [| c D IH]; intros a; cbn.
  - reflexivity.
  - cbn in HD. apply andb_true_iff in HD as [Hc HD]. rewrite Hc. apply IH. exact HD.
Qed.

Lemma scan_secs_digits_end (D tail : string) (a : Z) :
  all_chars is_digit D = true ->
  tail = "" \/ tail = "s" ->
  scan_secs a (D ++ tail) = Some (unsigned_decimal a D, tail).
Proof.
  intros HD Htail. revert a. induction D as [| c D IH]; intros a; cbn.
  - destruct Htail as [-> | ->]; reflexivity.
  - cbn in HD. apply andb_true_iff in HD as [Hc HD]. rewrite Hc. apply IH. exact HD.
Qed.

Lemma scan_fracs_digits (D tail : string) (a b : Z) :
  all_chars is_digit D = true ->
  tail = "" \/ tail = "s" ->
  scan_fracs a b (D ++ tail) = Some (unsigned_decimal a D, unsigned_pow10 b D, "").
Proof.
  intros HD Htail. revert a b. induction D as [| c D IH]; intros a b; cbn.
  - destruct Htail as [-> | ->]; reflexivity.
  - cbn in HD. apply andb_true_iff in HD as [Hc HD]. rewrite Hc. apply IH. exact HD.
Qed.

(** The sign the function reads off the head of the string. *)
Lemma dmsStringToRad_sign (sign body : string) :
  sign = "" \/ sign = "+" \/ sign = "-" ->
  (forall c s, body = String c s -> c <> "+"%char /\ c <> "-"%char) ->
  match sign ++ body with
  | String "-" s' => (true, s')
  | String "+" s' => (false, s')
  | _ => (false, sign ++ body)
  end = (String.eqb sign "-", body).
Proof.
  intros [-> | [-> | ->]] Hbody; cbn; try reflexivity.
  destruct body as [| c s]; [reflexivity |].
  destruct (Hbody c s eq_refl) as [Hp Hm].
  destruct (Ascii.eqb_spec c "-") as [-> | _]; [contradiction Hm; reflexivity |].
  destruct (Ascii.eqb_spec c "+") as [-> | _]; [contradiction Hp; reflexivity |].
  destruct c as [[] [] [] [] [] [] [] []]; try reflexivity;
    exfalso; (apply Hm; reflexivity) || (apply Hp; reflexivity).
Qed.

Lemma digits_head (D rest : string) (sep : ascii) (c : ascii) (s : string) :
  all_chars is_digit D = true ->
  sep <> "+"%char -> sep <> "-"%char ->
  D ++ String sep rest = String c s -> c <> "+"%char /\ c <> "-"%char.
Proof.
  intros HD Hp Hm. destruct D as [| d D]; cbn.
  - intros [= <- _]. split; assumption.
  - intros [= <- _]. cbn in HD. apply andb_true_iff in HD as [Hd _].
    destruct (@is_digit_not_sep d Hd) as (_ & _ & _ & _ & _ & H1 & H2). split; assumption.
Qed.

(** What [dmsStringToRad] reads: an optional sign, the digits of the
    degrees, [:] or [d], the digits of the minutes, [:] or [m], the digits of
    the seconds and then either a point, the digits of the fraction and an
    optional [s], or only an optional [s].  It returns [true] and assigns
    the angle made of the four decimal numbers, each read into an
    [unsigned], and of the power of ten of the number of fraction digits. *)
Theorem dmsStringToRad_accepts
    (sign D M S F tail : string) (sep1 sep2 : ascii) (rad : T) :
  sign = "" \/ sign = "+" \/ sign = "-" ->
  all_chars is_digit D = true -> all_chars is_digit M = true ->
  all_chars is_digit S = true -> all_chars is_digit F = true ->
  sep1 = ":"%char \/ sep1 = "d"%char ->
  sep2 = ":"%char \/ sep2 = "m"%char ->
  tail = "" \/ tail = "s" ->
  let negative := String.eqb sign "-" in
  let degs := unsigned_decimal 0 D in
  let mins := unsigned_decimal 0 M in
  let secs := unsigned_decimal 0 S in
  dmsStringToRad (sign ++ D ++ String sep1 (M ++ String sep2 (S ++ String "." (F ++ tail)))) rad
    = (true, dms_value negative degs mins secs (unsigned_decimal 0 F) (unsigned_pow10 1 F)) /\
  dmsStringToRad (sign ++ D ++ String sep1 (M ++ String sep2 (S ++ tail))) rad
    = (true, dms_value negative degs mins secs 0 1).
Proof.
  intros Hsign HD HM HS HF Hsep1 Hsep2 Htail negative degs mins secs.
  assert (Hhead : forall rest c s, D ++ String sep1 rest = String c s ->
                    c <> "+"%char /\ c <> "-"%char).
  { intros rest c s. apply digits_head; [exact HD | |];
      destruct Hsep1 as [-> | ->]; discriminate. }
  split.
  - unfold dmsStringToRad.
    rewrite (@dmsStringToRad_sign sign _ Hsign (Hhead _)).
    rewrite (@scan_degs_digits D _ sep1 0 HD Hsep1), (@scan_mins_digits M _ sep2 0 HM Hsep2).
    rewrite (@scan_secs_digits_dot S _ 0 HS), (@scan_fracs_digits F tail 0 1 HF Htail).
    reflexivity.
  - unfold dmsStringToRad.
    rewrite (@dmsStringToRad_sign sign _ Hsign (Hhead _)).
    rewrite (@scan_degs_digits D _ sep1 0 HD Hsep1), (@scan_mins_digits M _ sep2 0 HM Hsep2).
    rewrite (@scan_secs_digits_end S tail 0 HS Htail).
    destruct Htail as [-> | ->]; reflexivity.
Qed.

End AngleTextFacts.

Section DecimalFacts.
Local Open Scope string_scope.
Local Open Scope Z_scope.

















End DecimalFacts.

Section AngleFormatFacts.

Context {T : Type} {num : Num T} {fl : Floor T}.
Local Open Scope string_scope.




End AngleFormatFacts.

Module Binary64Text.
Import Binary64.


Section AnyLibm.
Context (m : Libm).


End AnyLibm.


End Binary64Text.

(** * Runs on binary64 with the reference libm *)

Module Binary64Witnesses.
Import Binary64.
Local Open Scope float_scope.

Local Abbreviation vars z h := {| gv_zone := z; gv_hemi := h; gv_N := 0; gv_E := 0 |}.
Local Abbreviation rad x := (RAD (num := num libm_ref) x).

(** An explicit UPS_NORTH at 45 S with the southern hemisphere requested. *)
Lemma explicit_ups_zone_overrides_hemisphere_witness :
  (rad 90 <? rad (-45)) || (rad (-45) <? rad (-90)) = false /\
  (UPS_NORTH = UPS_NORTH \/ UPS_NORTH = UPS_SOUTH) /\
  gv_hemi (snd (geographic_to_grid (num := num libm_ref) a_WGS84 e2_WGS84
                  (rad (-45)) (rad 10) (vars UPS_NORTH HEMI_SOUTH))) = HEMI_NORTH.
Proof.
  pose proof (@explicit_ups_zone_overrides_hemisphere float (num libm_ref) a_WGS84 e2_WGS84
                (rad (-45)) (rad 10) UPS_NORTH HEMI_SOUTH HEMI_AUTO 0 0) as H.
  cbv zeta in H.
  destruct H as (_ & _ & Hh & _); [vm_compute; reflexivity | left; reflexivity |].
  split; [vm_compute; reflexivity |]. split; [left; reflexivity |].
  exact Hh.
Defined.

(** Version 1.1 at 75 N, 10 E with zone 32 requested. *)
Lemma explicit_zone_kept_1_1_witness :
  (1 <= 32 <= 60)%Z /\
  (rad 90 <? rad 75) || (rad 75 <? rad (-90)) = false /\
  gv_zone (snd (geographic_to_grid_1_1 (num := num libm_ref) a_WGS84 e2_WGS84
                  (rad 75) (rad 10) (vars UTM_ZONE_32 HEMI_AUTO))) = UTM_ZONE_32.
Proof.
  assert (Hz : (1 <= 32 <= 60)%Z) by lia.
  pose proof (@explicit_zone_kept_1_1 float (num libm_ref) a_WGS84 e2_WGS84
                (rad 75) (rad 10) UTM_ZONE_32 HEMI_AUTO 0 0 Hz) as H.
  cbv zeta in H.
  destruct H as (_ & Hzone & _); [vm_compute; reflexivity |].
  split; [exact Hz |]. split; [vm_compute; reflexivity |].
  exact Hzone.
Defined.

(** Version 2.0 at the same point: the outputs are accepted. *)
Lemma explicit_zone_outputs_accepted_witness :
  (1 <= 32 <= 60)%Z /\
  (rad 90 <? rad 75) || (rad 75 <? rad (-90)) = false /\
  (let r := snd (geographic_to_grid (num := num libm_ref) a_WGS84 e2_WGS84
                   (rad 75) (rad 10) (vars UTM_ZONE_32 HEMI_AUTO)) in
   fst (grid_to_geographic (num := num libm_ref) a_WGS84 e2_WGS84
          (gv_zone r) (gv_hemi r) (gv_N r) (gv_E r) (0, 0)) = 1%Z).
Proof.
  assert (Hz : (1 <= 32 <= 60)%Z) by lia.
  pose proof (@explicit_zone_outputs_accepted float (num libm_ref) a_WGS84 e2_WGS84
                (rad 75) (rad 10) UTM_ZONE_32 HEMI_AUTO 0 0 (0, 0) Hz) as H.
  cbv zeta in H.
  destruct H as (_ & _ & Hacc); [vm_compute; reflexivity |].
  split; [exact Hz |]. split; [vm_compute; reflexivity |].
  exact Hacc.
Defined.

Lemma precompiled_ellipse_in_range_witness :
  (- 2 ^ 31 <= -1 < 2 ^ 31)%Z /\
  _precompiled_ellipse (num := num libm_ref) (-1)%Z
    = _precompiled_ellipse (num := num libm_ref) ELLIPSE_WGS84.
Proof.
  assert (Hint : (- 2 ^ 31 <= -1 < 2 ^ 31)%Z) by (split; [discriminate | reflexivity]).
  split; [exact Hint |].
  apply (proj2 (proj2 (@precompiled_ellipse_in_range float (num libm_ref) (-1)%Z Hint))).
  left. reflexivity.
Defined.

Local Open Scope string_scope.

Lemma dmsStringToRad_rejects_witness :
  all_chars dms_char "12x34" = false /\
  dmsStringToRad (num := num libm_ref) "12x34" 7%float = (false, 7%float).
Proof.
  assert (H : all_chars dms_char "12x34" = false) by reflexivity.
  split; [exact H |].
  exact (@dmsStringToRad_rejects float (num libm_ref) "12x34" 7%float H).
Defined.

(** The first longitude of the test program, [+045d00m00.000s]. *)
Lemma dmsStringToRad_accepts_witness :
  dmsStringToRad (num := num libm_ref) "+045d00m00.000s" 0%float
    = (true, dms_value (num := num libm_ref) false 45%Z 0%Z 0%Z 0%Z 1000%Z).
Proof.
  exact (proj1 (@dmsStringToRad_accepts float (num libm_ref)
                  "+" "045" "00" "00" "000" "s" "d" "m" 0%float
                  (or_intror (or_introl eq_refl)) eq_refl eq_refl eq_refl eq_refl
                  (or_intror eq_refl) (or_intror eq_refl) (or_intror eq_refl))).
Defined.

End Binary64Witnesses.
